(** * albert-readeck: the Readeck plugin for the Albert launcher

    A shallow embedding of [src/__init__.py]: the [LinkFetcherThread]
    scheduler, the paginating generator [_get_links], the refresh cycle
    [fetchIndexItems], the record transformer ([_create_filters],
    [_gen_item]) and the bookmark actions, followed by the properties the
    specification states about them.

    Effects are explicit: every method is a function from a [World]
    (plugin attributes, host stores, network log, thread table) to a
    result that is either a normal return, a raised exception, or fuel
    exhaustion of the model's only unbounded loops. *)

From Stdlib Require Import ZArith String Ascii List Bool Lia DecimalString.
From stdpp Require Import base list.
Import ListNotations.

Local Open Scope Z_scope.

(** ** Python built-ins used by the plugin *)

Module Py.

Infix "+:+" := String.append (at level 60, right associativity).

(** [str(n)] for an [int]. *)
Definition str (n : Z) : string := NilZero.string_of_int (Z.to_int n).

(** [sep.join(parts)]. *)
Definition join (sep : string) (parts : list string) : string :=
  String.concat sep parts.

(** [bool(s)] for a [str]: the empty string is falsy. *)
Definition truthy (s : string) : bool :=
  match s with EmptyString => false | String _ _ => true end.

(** [a or b] on strings. *)
Definition or_else (a b : string) : string := if truthy a then a else b.

(** [s.replace(old, new, 1)] for a non-empty [old]: the leftmost
    occurrence is replaced, the rest of [s] is kept. *)
Fixpoint replace1 (old new s : string) : string :=
  if String.prefix old s
  then new +:+ String.substring (String.length old)
                                (String.length s - String.length old) s
  else match s with
       | EmptyString => EmptyString
       | String c rest => String c (replace1 old new rest)
       end.

(** [c.lower()] on an ASCII letter; other characters are kept. *)
Definition lower_ascii (c : ascii) : ascii :=
  let n := nat_of_ascii c in
  if (65 <=? n)%nat && (n <=? 90)%nat then ascii_of_nat (n + 32) else c.

Fixpoint lower (s : string) : string :=
  match s with
  | EmptyString => EmptyString
  | String c rest => String (lower_ascii c) (lower rest)
  end.

(** Whitespace as [int()] and [str.strip()] see it, on Latin-1 text. *)
Definition is_space (c : ascii) : bool :=
  let n := nat_of_ascii c in
  ((9 <=? n)%nat && (n <=? 13)%nat) || ((28 <=? n)%nat && (n <=? 32)%nat)
  || (n =? 133)%nat || (n =? 160)%nat.

Definition digit (c : ascii) : option Z :=
  let n := nat_of_ascii c in
  if (48 <=? n)%nat && (n <=? 57)%nat then Some (Z.of_nat n - 48) else None.

Fixpoint lstrip (s : string) : string :=
  match s with
  | String c rest => if is_space c then lstrip rest else s
  | EmptyString => EmptyString
  end.

Fixpoint blank (s : string) : bool :=
  match s with
  | EmptyString => true
  | String c rest => is_space c && blank rest
  end.

(** Digits with single underscores between them, then optional
    trailing whitespace; [prev] tells whether the previous character
    was a digit. [None] is [ValueError]. *)
Fixpoint digits (acc : Z) (prev : bool) (s : string) : option Z :=
  match s with
  | EmptyString => if prev then Some acc else None
  | String c rest =>
      match digit c with
      | Some d => digits (10 * acc + d) true rest
      | None =>
          if Ascii.eqb c "_" then
            if prev then digits acc false rest else None
          else if prev && blank s then Some acc
          else None
      end
  end.

(** [int(s)] in base 10 for a [str] of Latin-1 characters, as header
    values are; [None] when it raises [ValueError]. The interpreter's
    cap on the number of digits is left out. *)
Definition int (s : string) : option Z :=
  match lstrip s with
  | String "-" rest => option_map Z.opp (digits 0 false rest)
  | String "+" rest => digits 0 false rest
  | t => digits 0 false t
  end.

(** [urllib.parse.urlencode] of a dict with plain keys and [int]
    values, in insertion order. *)
Definition urlencode (params : list (string * Z)) : string :=
  join "&" (map (fun kv => fst kv +:+ "=" +:+ str (snd kv)) params).

End Py.

Import Py.

Local Open Scope string_scope.
Local Open Scope list_scope.
Local Open Scope Z_scope.

(** ** Data model *)

(** One bookmark as the server reports it (an element of the JSON array
    of [GET /api/bookmarks]); the keys the plugin reads. *)
Record RawRecord := {
  bk_id : string;
  bk_url : string;
  bk_title : string;
  bk_labels : list string;
  bk_is_marked : bool;
  bk_is_archived : bool;
  bk_href : string
}.

(** A header dictionary ([requests]' case-insensitive dict), in order. *)
Definition Headers := list (string * string).

(** [headers.get(key)]: keys compare case-insensitively. *)
Fixpoint headers_get (key : string) (h : Headers) : option string :=
  match h with
  | [] => None
  | (k, v) :: rest =>
      if String.eqb (lower k) (lower key) then Some v else headers_get key rest
  end.

Inductive Method := GET | PATCH | DELETE.

Record Request := {
  method : Method;
  req_url : string;
  req_headers : Headers;
  req_json : option (list (string * bool));
  req_timeout : option Z
}.

Record Response := {
  status_code : Z;
  headers : Headers;
  (** [response.json()]: [None] when the body does not decode *)
  json : option (list RawRecord)
}.

(** [response.ok]: [raise_for_status()] would not raise, that is the
    status is not a 4xx or 5xx one. *)
Definition ok (r : Response) : bool :=
  negb ((400 <=? status_code r) && (status_code r <? 600)).

(** What a call into [requests] comes back with: a response, or an
    exception for a connection failure or a timeout. *)
Inductive HttpOutcome :=
| Responded (r : Response)
| Failed.

Inductive Exn :=
| RequestException   (* connection error or timeout raised by requests *)
| JSONDecodeError    (* response.json() on an undecodable body *)
| ValueError         (* int() on a malformed Total-Count *)
| RuntimeError.      (* start() or join() on a thread in the wrong state *)

(** The closures the plugin hands to the host, by what their body calls. *)
Inductive Callable :=
| lambda_openUrl (u : string)
| lambda_setClipboardText (u : string)
| lambda_archive_bookmark (u : string)
| bound_fetchIndexItems.

Record Action := {
  action_id : string;
  action_text : string;
  action_callable : Callable
}.

Record StandardItem := {
  item_id : string;
  text : string;
  subtext : string;
  item_iconUrls : list string;
  actions : list Action
}.

Record IndexItem := {
  item : StandardItem;
  string_ : string
}.

(** Messages of the host's logger, by call site. *)
Inductive LogEntry :=
| info_indexed (count : nat)                    (* line 123 *)
| warning_page (status : Z) (url : string)      (* line 203 *)
| warning_response (status : Z)                 (* lines 214, 224 *)
| debug_about_to (m : Method) (url : string).   (* lines 209, 219 *)

Inductive HostCall :=
| openUrl (u : string)
| setClipboardText (u : string).

Inductive ConfigValue :=
| cfg_str (s : string)
| cfg_int (n : Z).

(** Where a [LinkFetcherThread] stands in [run]. *)
Inductive PC :=
| pc_created     (* constructed, not started *)
| pc_run         (* started, before the first callback (line 29) *)
| pc_wait        (* before [wait] (line 31) *)
| pc_check       (* [wait] returned, before [is_set] (line 32) *)
| pc_exited.     (* [run] returned or raised *)

Record LinkFetcherThread := {
  __stop_event : bool;
  __callback : Callable;
  __cache_length : Z;
  pc : PC
}.

(** [Thread.is_alive()]. *)
Definition is_alive (t : LinkFetcherThread) : bool :=
  match pc t with
  | pc_run | pc_wait | pc_check => true
  | pc_created | pc_exited => false
  end.

(** The attributes of the [Plugin] instance. [limit] and [user_agent]
    are class constants; [plugin_id] and [iconUrls] come from the host. *)
Record Plugin := {
  _instance_url : string;
  _api_key : string;
  _cache_length : Z;
  _index_items : list IndexItem;
  _thread : nat;
  plugin_id : string;
  iconUrls : list string
}.

Definition limit : Z := 100.
Definition user_agent : string := "org.albert.linkding".

(** Everything a method can read or change: the plugin, the host's
    configuration store, index store, logger and desktop, the requests
    sent so far, the remote server (answering the [n]-th request of the
    run), and the table of threads ever constructed. *)
Record World := {
  self : Plugin;
  config : list (string * ConfigValue);
  index : list IndexItem;
  log : list LogEntry;
  desktop : list HostCall;
  net : list Request;
  remote : nat -> Request -> HttpOutcome;
  threads : list LinkFetcherThread
}.

(** *** Field updates *)

Definition set_instance_url (v : string) (p : Plugin) : Plugin :=
  {| _instance_url := v; _api_key := _api_key p;
     _cache_length := _cache_length p; _index_items := _index_items p;
     _thread := _thread p; plugin_id := plugin_id p; iconUrls := iconUrls p |}.

Definition set_api_key (v : string) (p : Plugin) : Plugin :=
  {| _instance_url := _instance_url p; _api_key := v;
     _cache_length := _cache_length p; _index_items := _index_items p;
     _thread := _thread p; plugin_id := plugin_id p; iconUrls := iconUrls p |}.

Definition set_cache_length (v : Z) (p : Plugin) : Plugin :=
  {| _instance_url := _instance_url p; _api_key := _api_key p;
     _cache_length := v; _index_items := _index_items p;
     _thread := _thread p; plugin_id := plugin_id p; iconUrls := iconUrls p |}.

Definition set_index_items (v : list IndexItem) (p : Plugin) : Plugin :=
  {| _instance_url := _instance_url p; _api_key := _api_key p;
     _cache_length := _cache_length p; _index_items := v;
     _thread := _thread p; plugin_id := plugin_id p; iconUrls := iconUrls p |}.

Definition set_thread (v : nat) (p : Plugin) : Plugin :=
  {| _instance_url := _instance_url p; _api_key := _api_key p;
     _cache_length := _cache_length p; _index_items := _index_items p;
     _thread := v; plugin_id := plugin_id p; iconUrls := iconUrls p |}.

Definition with_self (f : Plugin -> Plugin) (w : World) : World :=
  {| self := f (self w); config := config w; index := index w; log := log w;
     desktop := desktop w; net := net w; remote := remote w;
     threads := threads w |}.

Definition with_config (f : list (string * ConfigValue) -> list (string * ConfigValue))
    (w : World) : World :=
  {| self := self w; config := f (config w); index := index w; log := log w;
     desktop := desktop w; net := net w; remote := remote w;
     threads := threads w |}.

Definition with_index (v : list IndexItem) (w : World) : World :=
  {| self := self w; config := config w; index := v; log := log w;
     desktop := desktop w; net := net w; remote := remote w;
     threads := threads w |}.

Definition with_log (e : LogEntry) (w : World) : World :=
  {| self := self w; config := config w; index := index w;
     log := log w ++ [e];
     desktop := desktop w; net := net w; remote := remote w;
     threads := threads w |}.

Definition with_desktop (c : HostCall) (w : World) : World :=
  {| self := self w; config := config w; index := index w; log := log w;
     desktop := desktop w ++ [c]; net := net w; remote := remote w;
     threads := threads w |}.

Definition with_net (r : Request) (w : World) : World :=
  {| self := self w; config := config w; index := index w; log := log w;
     desktop := desktop w; net := net w ++ [r]; remote := remote w;
     threads := threads w |}.

Definition with_threads (f : list LinkFetcherThread -> list LinkFetcherThread)
    (w : World) : World :=
  {| self := self w; config := config w; index := index w; log := log w;
     desktop := desktop w; net := net w; remote := remote w;
     threads := f (threads w) |}.

(** ** Results and sequencing *)

Inductive Res (A : Type) :=
| Ok (a : A) (w : World)
| Raise (e : Exn) (w : World)
| OutOfFuel.

Arguments Ok {A} a w.
Arguments Raise {A} e w.
Arguments OutOfFuel {A}.

Definition M (A : Type) := World -> Res A.

Definition ret {A} (a : A) : M A := fun w => Ok a w.

Definition bind {A B} (m : M A) (k : A -> M B) : M B :=
  fun w =>
    match m w with
    | Ok a w' => k a w'
    | Raise e w' => Raise e w'
    | OutOfFuel => OutOfFuel
    end.

Definition raise {A} (e : Exn) : M A := fun w => Raise e w.

(** A statement that only changes the world. *)
Definition modify (f : World -> World) : M unit := fun w => Ok tt (f w).

Definition get {A} (f : World -> A) : M A := fun w => Ok (f w) w.

Notation "x <~ m ;; k" := (bind m (fun x => k))
  (at level 100, m at next level, right associativity).
Notation "m ;;; k" := (bind m (fun _ => k))
  (at level 100, right associativity).

(** The world a result ends in, if any. *)
Definition world_of {A} (r : Res A) : option World :=
  match r with
  | Ok _ w | Raise _ w => Some w
  | OutOfFuel => None
  end.

Definition returns {A} (r : Res A) : bool :=
  match r with Ok _ _ => true | _ => false end.


(** ** Record transformer (lines 145-165) *)

Definition _create_filters (item : RawRecord) : string :=
  join "," [bk_url item; bk_title item; join "," (bk_labels item)].

Definition _gen_item (p : Plugin) (bookmark : RawRecord) : StandardItem :=
  let title := or_else (bk_title bookmark) (bk_url bookmark) in
  (* Add a star for favourites *)
  let title := if bk_is_marked bookmark then "⭐ " +:+ title else title in
  {| item_id := plugin_id p;
     text := title;
     subtext := join "," (bk_labels bookmark) +:+ ": " +:+ bk_url bookmark;
     item_iconUrls := iconUrls p;
     actions :=
       [ {| action_id := "open"; action_text := "Open in Readeck";
            action_callable :=
              lambda_openUrl (replace1 "/api" EmptyString (bk_href bookmark)) |};
         {| action_id := "open"; action_text := "Open bookmark URL";
            action_callable := lambda_openUrl (bk_url bookmark) |};
         {| action_id := "copy"; action_text := "Copy URL to clipboard";
            action_callable := lambda_setClipboardText (bk_url bookmark) |};
         {| action_id := "archive"; action_text := "Archive bookmark";
            action_callable := lambda_archive_bookmark (bk_id bookmark) |};
         {| action_id := "delete"; action_text := "Delete bookmark";
            action_callable := lambda_archive_bookmark (bk_id bookmark) |} ]
  |}.

(** ** Remote client *)

(** One call into [requests]: the request is recorded, the server
    answers it or the library raises. *)
Definition send (r : Request) : M Response :=
  fun w =>
    match remote w (length (net w)) r with
    | Responded resp => Ok resp (with_net r w)
    | Failed => Raise RequestException (with_net r w)
    end.

(** ** Pager: the generator [_get_links] (lines 178-204) *)

(** The generator's local variables while it is suspended at [yield]. *)
Record Locals := {
  offset : Z;
  total : Z;
  hdrs : Headers;
  response_headers : option Headers
}.

Inductive Generator :=
| gen_created                  (* body not entered yet *)
| gen_suspended (l : Locals)   (* stopped at line 201 *)
| gen_finished.

(** What [next()] hands to the consumer. *)
Inductive Next :=
| yield (result : list RawRecord) (g : Generator)
| StopIteration.

(** [not response_headers]: [None] and the empty dict are falsy. *)
Definition falsy (h : option Headers) : bool :=
  match h with
  | None | Some [] => true
  | Some (_ :: _) => false
  end.

Definition page_url (instance_url : string) (off : Z) : string :=
  instance_url +:+ "/api/bookmarks?"
  +:+ urlencode [("limit", limit); ("offset", off)].

(** [int(response_headers.get("Total-Count", 1))]. *)
Definition total_count (h : Headers) : option Z :=
  match headers_get "Total-Count" h with
  | None => Some 1
  | Some v => int v
  end.

(** From the [while] test to the next [yield] or to the end of the
    body (lines 191-204). *)
Definition _get_links_resume (l : Locals) : M Next :=
  if offset l <=? total l then
    url <~ get (fun w => page_url (_instance_url (self w)) (offset l)) ;;
    response <~ send {| method := GET; req_url := url;
                        req_headers := hdrs l; req_json := None;
                        req_timeout := Some 5 |} ;;
    if ok response then
      captured <~
        (if falsy (response_headers l) then
           match total_count (headers response) with
           | Some n => ret (Some (headers response), n)
           | None => raise ValueError
           end
         else ret (response_headers l, total l)) ;;
      match json response with
      | None => raise JSONDecodeError
      | Some result =>
          ret (yield result
                 (gen_suspended {| offset := offset l + limit;
                                   total := snd captured;
                                   hdrs := hdrs l;
                                   response_headers := fst captured |}))
      end
    else
      modify (with_log (warning_page (status_code response) url)) ;;;
      ret StopIteration
  else ret StopIteration.

Definition get_headers (api_key : string) : Headers :=
  [("User-Agent", user_agent); ("Authorization", "Bearer " +:+ api_key);
   ("accept", "application/json")].

(** [next(g)] on the generator object. *)
Definition _get_links_next (g : Generator) : M Next :=
  match g with
  | gen_created =>
      h <~ get (fun w => get_headers (_api_key (self w))) ;;
      _get_links_resume {| offset := 0; total := 1; hdrs := h;
                           response_headers := None |}
  | gen_suspended l => _get_links_resume l
  | gen_finished => ret StopIteration
  end.

(** ** Refresh cycle (lines 112-124, 167-176) *)

(** The body of the [for] loop of [fetchIndexItems] for one link. *)
Definition index_link (p : Plugin) (link : RawRecord) : Plugin :=
  set_index_items
    (_index_items p ++ [{| item := _gen_item p link;
                           string_ := _create_filters link |}]) p.

(** [for link in data], where [data] flattens the pages the generator
    yields: a page is asked for when the previous one is used up. *)
Fixpoint for_link_in (fuel : nat) (data : Generator) : M unit :=
  match fuel with
  | O => fun _ => OutOfFuel
  | S fuel' =>
      nxt <~ _get_links_next data ;;
      match nxt with
      | yield link_list data' =>
          modify (with_self (fun p => fold_left index_link link_list p)) ;;;
          for_link_in fuel' data'
      | StopIteration => ret tt
      end
  end.

(** [list(self._fetch_results())]: the links of all the pages the
    generator yields until it stops, for a consumer that only collects. *)
Fixpoint _fetch_results (fuel : nat) (g : Generator) : M (list RawRecord) :=
  match fuel with
  | O => fun _ => OutOfFuel
  | S fuel' =>
      nxt <~ _get_links_next g ;;
      match nxt with
      | yield link_list g' =>
          rest <~ _fetch_results fuel' g' ;;
          ret (link_list ++ rest)
      | StopIteration => ret []
      end
  end.

Definition updateIndexItems : M unit :=
  modify (fun w => with_index (_index_items (self w)) w).

(** The wall-clock duration in the log line is not modelled. *)
Definition fetchIndexItems (fuel : nat) : M unit :=
  for_link_in fuel gen_created ;;;
  updateIndexItems ;;;
  modify (fun w => with_log (info_indexed (length (_index_items (self w)))) w) ;;;
  modify (with_self (set_index_items [])).

(** ** Action executor (lines 206-224) *)

Definition action_headers (api_key : string) : Headers :=
  [("User-Agent", user_agent); ("Authorization", "Bearer " +:+ api_key)].

Definition _delete_bookmark (fuel : nat) (bookmark_id : string) : M unit :=
  url <~ get (fun w => _instance_url (self w) +:+ "/api/bookmarks/"
                       +:+ bookmark_id) ;;
  h <~ get (fun w => action_headers (_api_key (self w))) ;;
  modify (with_log (debug_about_to DELETE url)) ;;;
  response <~ send {| method := DELETE; req_url := url; req_headers := h;
                      req_json := None; req_timeout := None |} ;;
  if ok response then fetchIndexItems fuel
  else modify (with_log (warning_response (status_code response))).

Definition _archive_bookmark (fuel : nat) (bookmark_id : string) : M unit :=
  url <~ get (fun w => _instance_url (self w) +:+ "/api/bookmarks/"
                       +:+ bookmark_id +:+ "/") ;;
  h <~ get (fun w => action_headers (_api_key (self w))) ;;
  modify (with_log (debug_about_to PATCH url)) ;;;
  response <~ send {| method := PATCH; req_url := url; req_headers := h;
                      req_json := Some [("is_archived", true)];
                      req_timeout := None |} ;;
  if ok response then fetchIndexItems fuel
  else modify (with_log (warning_response (status_code response))).

(** Calling one of the plugin's closures. *)
Definition call (fuel : nat) (c : Callable) : M unit :=
  match c with
  | lambda_openUrl u => modify (with_desktop (openUrl u))
  | lambda_setClipboardText u => modify (with_desktop (setClipboardText u))
  | lambda_archive_bookmark u => _archive_bookmark fuel u
  | bound_fetchIndexItems => fetchIndexItems fuel
  end.

(** ** Refresh scheduler: [LinkFetcherThread] (lines 21-37) *)

Definition LinkFetcherThread__init__ (callback : Callable) (cache_length : Z)
    : LinkFetcherThread :=
  {| __stop_event := false;
     __callback := callback;
     __cache_length := cache_length * 60;
     pc := pc_created |}.

Definition at_pc (v : PC) (t : LinkFetcherThread) : LinkFetcherThread :=
  {| __stop_event := __stop_event t; __callback := __callback t;
     __cache_length := __cache_length t; pc := v |}.

Definition set_stop_event (t : LinkFetcherThread) : LinkFetcherThread :=
  {| __stop_event := true; __callback := __callback t;
     __cache_length := __cache_length t; pc := pc t |}.

(** What one step of a thread did. *)
Inductive Did :=
| did_callback                 (* ran [self.__callback()] to its return *)
| did_die (e : Exn)            (* the callback raised: the thread ends *)
| did_wait (timeout : Z)       (* [self.__stop_event.wait(timeout)] *)
| did_return                   (* saw the event set and returned *)
| did_nothing.                 (* not running *)

Definition move (tid : nat) (v : PC) : World -> World :=
  with_threads (alter (at_pc v) tid).

(** Lines 29 and 34: the callback, then on to [wait]. An exception ends
    [run]; nothing catches it and nothing outside the thread sees it. *)
Definition run_callback (fuel : nat) (tid : nat) (t : LinkFetcherThread)
    : M Did :=
  fun w =>
    match call fuel (__callback t) w with
    | Ok _ w' => Ok did_callback (move tid pc_wait w')
    | Raise e w' => Ok (did_die e) (move tid pc_exited w')
    | OutOfFuel => OutOfFuel
    end.

(** One step of [run] in thread [tid]: the first callback, a [wait], or
    the test of the event together with what it leads to. *)
Definition thread_step (fuel : nat) (tid : nat) : M Did :=
  fun w =>
    match threads w !! tid with
    | None => Ok did_nothing w
    | Some t =>
        match pc t with
        | pc_run => run_callback fuel tid t w
        | pc_wait => Ok (did_wait (__cache_length t)) (move tid pc_check w)
        | pc_check =>
            if __stop_event t then Ok did_return (move tid pc_exited w)
            else run_callback fuel tid t w
        | pc_created | pc_exited => Ok did_nothing w
        end
    end.

(** [thread.stop()]. *)
Definition stop (tid : nat) : M unit :=
  modify (with_threads (alter set_stop_event tid)).

(** [thread.start()]. *)
Definition start (tid : nat) : M unit :=
  fun w =>
    match threads w !! tid with
    | Some t =>
        match pc t with
        | pc_created => Ok tt (move tid pc_run w)
        | _ => Raise RuntimeError w
        end
    | None => Raise RuntimeError w
    end.

(** [thread.join()]: the caller waits while the thread runs on; with no
    end of the thread in sight the fuel runs out. *)
Fixpoint join (fuel : nat) (tid : nat) : M unit :=
  match fuel with
  | O => fun _ => OutOfFuel
  | S fuel' =>
      fun w =>
        match threads w !! tid with
        | Some t =>
            match pc t with
            | pc_created => Raise RuntimeError w
            | pc_exited => Ok tt w
            | _ => (thread_step fuel' tid ;;; join fuel' tid) w
            end
        | None => Raise RuntimeError w
        end
  end.

Definition thread_is_alive (tid : nat) : M bool :=
  get (fun w => match threads w !! tid with
                | Some t => is_alive t
                | None => false
                end).

(** [n] consecutive steps of thread [tid], with what each did. *)
Fixpoint thread_run (fuel : nat) (n : nat) (tid : nat) : M (list Did) :=
  match n with
  | O => ret []
  | S n' =>
      d <~ thread_step fuel tid ;;
      ds <~ thread_run fuel n' tid ;;
      ret (d :: ds)
  end.

(** ** Plugin life cycle and configuration (lines 45-98) *)

Definition writeConfig (key : string) (v : ConfigValue) : M unit :=
  modify (with_config (fun c => (key, v) :: c)).

Fixpoint readConfig (key : string) (c : list (string * ConfigValue))
    : option ConfigValue :=
  match c with
  | [] => None
  | (k, v) :: rest => if String.eqb k key then Some v else readConfig key rest
  end.

(** [self._thread = LinkFetcherThread(...); self._thread.start()]. *)
Definition spawn (callback : Callable) (cache_length : Z) : M unit :=
  tid <~ get (fun w => length (threads w)) ;;
  modify (with_threads
            (fun ts => ts ++ [LinkFetcherThread__init__ callback cache_length])) ;;;
  modify (with_self (set_thread tid)) ;;;
  start tid.

(** [Plugin.__init__], in the environment the host provides. *)
Definition Plugin__init__ (host_config : list (string * ConfigValue))
    (id : string) (icons : list string)
    (server : nat -> Request -> HttpOutcome) : Res unit :=
  let url := match readConfig "instance_url" host_config with
             | Some (cfg_str s) => or_else s "http://localhost:8000"
             | _ => "http://localhost:8000"
             end in
  let key := match readConfig "api_key" host_config with
             | Some (cfg_str s) => s
             | _ => EmptyString
             end in
  let len := match readConfig "cache_length" host_config with
             | Some (cfg_int n) => if n =? 0 then 15 else n
             | _ => 15
             end in
  spawn bound_fetchIndexItems len
    {| self := {| _instance_url := url; _api_key := key;
                  _cache_length := len; _index_items := [];
                  _thread := O; plugin_id := id; iconUrls := icons |};
       config := host_config; index := []; log := []; desktop := [];
       net := []; remote := server; threads := [] |}.

Definition Plugin__del__ (fuel : nat) : M unit :=
  tid <~ get (fun w => _thread (self w)) ;;
  stop tid ;;;
  join fuel tid.

Definition instance_url_setter (value : string) : M unit :=
  modify (with_self (set_instance_url value)) ;;;
  writeConfig "instance_url" (cfg_str value).

Definition api_key_setter (value : string) : M unit :=
  modify (with_self (set_api_key value)) ;;;
  writeConfig "api_key" (cfg_str value).

(** Lines 94-96: the running scheduler is stopped and waited for. *)
Definition retire (fuel : nat) : M unit :=
  old <~ get (fun w => _thread (self w)) ;;
  alive <~ thread_is_alive old ;;
  if alive then stop old ;;; join fuel old else ret tt.

(** [cache_timeout] is written here and read nowhere; it is left out. *)
Definition cache_length_setter (fuel : nat) (value : Z) : M unit :=
  let value := if value <? 1 then 1 else value in
  modify (with_self (set_cache_length value)) ;;;
  writeConfig "cache_length" (cfg_int value) ;;;
  retire fuel ;;;
  len <~ get (fun w => _cache_length (self w)) ;;
  spawn bound_fetchIndexItems len.

(** * Properties *)

(** ** Vocabulary for statements about a pagination run *)

(** The list-page request for one offset. *)
Definition page_request (instance_url : string) (h : Headers) (off : Z)
    : Request :=
  {| method := GET; req_url := page_url instance_url off; req_headers := h;
     req_json := None; req_timeout := Some 5 |}.

(** [n] list-page requests at consecutive offsets from [off]. *)
Fixpoint page_requests (instance_url : string) (h : Headers) (off : Z)
    (n : nat) : list Request :=
  match n with
  | O => []
  | S n' => page_request instance_url h off
            :: page_requests instance_url h (off + limit) n'
  end.

(** The first list-page request of a run started in [w]. *)
Definition first_request (w : World) : Request :=
  page_request (_instance_url (self w)) (get_headers (_api_key (self w))) 0.

(** The searchable record built from one link. *)
Definition index_item (p : Plugin) (link : RawRecord) : IndexItem :=
  {| item := _gen_item p link; string_ := _create_filters link |}.

(** The links of a list of decoded pages, in order. *)
Definition bodies (rs : list Response) : list RawRecord :=
  concat (map (fun r => default [] (json r)) rs).

(** The world after the requests [reqs] were sent and the links [links]
    were put on the accumulator. *)
Definition fetched (reqs : list Request) (links : list RawRecord)
    (w : World) : World :=
  {| self := set_index_items
               (_index_items (self w) ++ map (index_item (self w)) links)
               (self w);
     config := config w; index := index w; log := log w;
     desktop := desktop w; net := net w ++ reqs; remote := remote w;
     threads := threads w |}.

(** The generator's locals [n] pages further on. *)
Definition advance (n : nat) (l : Locals) : Locals :=
  {| offset := offset l + limit * Z.of_nat n; total := total l;
     hdrs := hdrs l; response_headers := response_headers l |}.

(** The server answers the next [length rs] list-page requests of the
    run, from the offset in [l] on, with the decodable successes [rs]. *)
Definition serves (w : World) (l : Locals) (rs : list Response) : Prop :=
  forall (j : nat) (r : Response),
    rs !! j = Some r ->
    remote w (length (net w) + j)%nat
           (page_request (_instance_url (self w)) (hdrs l)
                         (offset l + limit * Z.of_nat j)) = Responded r
    /\ ok r = true /\ is_Some (json r).

(** The generator's locals when its body is entered from [w]. *)
Definition start_locals (w : World) : Locals :=
  {| offset := 0; total := 1; hdrs := get_headers (_api_key (self w));
     response_headers := None |}.

(** The pages [rs] are all asked for: the total captured from the first
    allows the offset of each later one. *)
Definition pages_within (rs : list Response) : Prop :=
  match rs with
  | [] => True
  | r0 :: rest => exists T, total_count (headers r0) = Some T
                            /\ limit * Z.of_nat (length rest) <= T
  end.

(** After the successful pages [rs] the loop test passes once more:
    the total captured from the first of them allows the next offset. *)
Definition reaches_page (rs : list Response) : Prop :=
  match rs with
  | [] => True
  | r0 :: _ => exists T, total_count (headers r0) = Some T
                         /\ limit * Z.of_nat (length rs) <= T
  end.

(** What the server does with the list-page request that follows the
    pages [rs]. *)
Definition next_answer (w : World) (rs : list Response) : HttpOutcome :=
  remote w (length (net w) + length rs)%nat
         (page_request (_instance_url (self w))
                       (get_headers (_api_key (self w)))
                       (limit * Z.of_nat (length rs))).

(** [l'] is reached from [l] by further successful [next()] calls, in
    whatever worlds the consumer makes them. *)
Inductive resumes : Locals -> Locals -> Prop :=
| resumes_here (l : Locals) : resumes l l
| resumes_next (l l' l'' : Locals) (w w' : World) (p : list RawRecord) :
    _get_links_next (gen_suspended l) w = Ok (yield p (gen_suspended l')) w' ->
    resumes l' l'' ->
    resumes l l''.

(** The generator's locals after the successful pages [rs]. *)
Definition locals_after (w : World) (rs : list Response) : Locals :=
  match rs with
  | [] => start_locals w
  | r0 :: _ =>
      {| offset := limit * Z.of_nat (length rs);
         total := default 1 (total_count (headers r0));
         hdrs := get_headers (_api_key (self w));
         response_headers := Some (headers r0) |}
  end.

(** Where the generator stands after the successful pages [rs]. *)
Definition generator_after (w : World) (rs : list Response) : Generator :=
  match rs with
  | [] => gen_created
  | _ :: _ => gen_suspended (locals_after w rs)
  end.

(** A page request that does not succeed: the library raises, or the
    response is not [ok]. *)
Definition page_error (o : HttpOutcome) : Prop :=
  match o with
  | Failed => True
  | Responded r => ok r = false
  end.

(** The request [_archive_bookmark] sends for a bookmark id. *)
Definition patch_request (w : World) (bookmark_id : string) : Request :=
  {| method := PATCH;
     req_url := _instance_url (self w) +:+ "/api/bookmarks/"
                +:+ bookmark_id +:+ "/";
     req_headers := action_headers (_api_key (self w));
     req_json := Some [("is_archived", true)];
     req_timeout := None |}.

(** The request [_delete_bookmark] sends for a bookmark id. *)
Definition delete_request (w : World) (bookmark_id : string) : Request :=
  {| method := DELETE;
     req_url := _instance_url (self w) +:+ "/api/bookmarks/" +:+ bookmark_id;
     req_headers := action_headers (_api_key (self w));
     req_json := None;
     req_timeout := None |}.

(** The closures bound to the actions of an item that carry the id
    [name]. *)
Definition callables_of (name : string) (it : StandardItem) : list Callable :=
  map action_callable
      (filter (fun a => String.eqb (action_id a) name = true) (actions it)).

Definition is_get (r : Request) : Prop := method r = GET.

Definition not_delete (r : Request) : Prop := method r <> DELETE.


(** At most the plugin's current thread is alive. *)
Definition one_scheduler (w : World) : Prop :=
  forall (tid : nat) (t : LinkFetcherThread),
    threads w !! tid = Some t -> is_alive t = true -> tid = _thread (self w).

(** No thread is alive. *)
Definition no_scheduler (w : World) : Prop :=
  forall (tid : nat) (t : LinkFetcherThread),
    threads w !! tid = Some t -> is_alive t = false.

(** [w'] keeps the thread table and the plugin's thread and interval. *)
Definition same_threads (w w' : World) : Prop :=
  threads w' = threads w
  /\ _thread (self w') = _thread (self w)
  /\ _cache_length (self w') = _cache_length (self w).

(** [w'] differs from [w] in the thread table at most at [tid], and
    keeps the plugin's thread and interval. *)
Definition touched (tid : nat) (w w' : World) : Prop :=
  (forall j, j <> tid -> threads w' !! j = threads w !! j)
  /\ length (threads w') = length (threads w)
  /\ _thread (self w') = _thread (self w)
  /\ _cache_length (self w') = _cache_length (self w).

(** Lines 89-96 of the [cache_length] setter: everything before the
    replacement thread is constructed. *)
Definition cache_length_setter_until_joined (fuel : nat) (value : Z) : M unit :=
  let value := if value <? 1 then 1 else value in
  modify (with_self (set_cache_length value)) ;;;
  writeConfig "cache_length" (cfg_int value) ;;;
  retire fuel.

(** [w'] differs from [w] at most in the accumulator, the stores and the
    log, and in requests sent, each of which satisfies [P]. *)
Definition after (P : Request -> Prop) (w w' : World) : Prop :=
  threads w' = threads w /\ remote w' = remote w
  /\ _thread (self w') = _thread (self w)
  /\ _cache_length (self w') = _cache_length (self w)
  /\ _instance_url (self w') = _instance_url (self w)
  /\ _api_key (self w') = _api_key (self w)
  /\ exists new, net w' = net w ++ new /\ Forall P new.

(** A request as the pager builds it from the headers [h]. *)
Definition paged_by (h : Headers) (r : Request) : Prop :=
  method r = GET /\ req_json r = None /\ req_timeout r = Some 5
  /\ req_headers r = h.

(** Lines 122-124: the accumulator becomes the index, the count is
    logged, the accumulator is emptied. *)
Definition install (w : World) : World :=
  with_self (set_index_items [])
    (with_log (info_indexed (length (_index_items (self w))))
       (with_index (_index_items (self w)) w)).

(** The requests sent between [w] and the end of [r]. *)
Definition sent {A} (w : World) (r : Res A) : list Request :=
  match world_of r with
  | Some w' => drop (length (net w)) (net w')
  | None => []
  end.

(** The world after the entries [es] were logged. *)
Definition logged (es : list LogEntry) (w : World) : World :=
  {| self := self w; config := config w; index := index w;
     log := log w ++ es;
     desktop := desktop w; net := net w; remote := remote w;
     threads := threads w |}.

(** What a pagination run may log: nothing, or one warning about the
    page that was answered with an error status. *)
Definition at_most_a_warning (es : list LogEntry) : Prop :=
  es = [] \/ exists status url, es = [warning_page status url].

(** [old] does not match at any position inside [a] when [a] is followed
    by [tail]. *)
Fixpoint no_match_in (old a tail : string) : bool :=
  match a with
  | EmptyString => true
  | String c a' =>
      negb (String.prefix old (a +:+ tail)) && no_match_in old a' tail
  end.

(** The outcome of a computation with the world of a result mapped. *)
Definition map_world {A} (f : World -> World) (r : Res A) : Res A :=
  match r with
  | Ok a w => Ok a (f w)
  | Raise e w => Raise e (f w)
  | OutOfFuel => OutOfFuel
  end.

(** ** Sample worlds *)

Module Demo.

Definition bookmark (name : string) (marked : bool) : RawRecord :=
  {| bk_id := name; bk_url := "http://" +:+ name; bk_title := EmptyString;
     bk_labels := ["a"; "b"]; bk_is_marked := marked;
     bk_is_archived := false;
     bk_href := "http://localhost:8000/api/bookmarks/" +:+ name |}.

(** A successful page holding one bookmark and reporting [count]. *)
Definition page (count : string) (name : string) : Response :=
  {| status_code := 200;
     headers := [("Content-Type", "application/json");
                 ("Total-Count", count)];
     json := Some [bookmark name true] |}.

Definition not_found : Response :=
  {| status_code := 404; headers := [("Content-Length", "0")];
     json := None |}.

(** The plugin as [__init__] leaves it with an empty configuration. *)
Definition fresh (server : nat -> Request -> HttpOutcome) : World :=
  {| self := {| _instance_url := "http://localhost:8000"; _api_key := EmptyString;
                _cache_length := 15; _index_items := [];
                _thread := O; plugin_id := "readeck";
                iconUrls := ["file:/plugins/readeck/readeck.svg"] |};
     config := []; index := []; log := []; desktop := []; net := [];
     remote := server;
     threads := [{| __stop_event := false;
                    __callback := bound_fetchIndexItems;
                    __cache_length := 900; pc := pc_run |}] |}.

(** A server that answers every request the same way. *)
Definition always (o : HttpOutcome) : nat -> Request -> HttpOutcome :=
  fun _ _ => o.

(** A server that answers the requests of the run from a script, and
    is unreachable afterwards. *)
Definition scripted (os : list HttpOutcome) : nat -> Request -> HttpOutcome :=
  fun n _ => nth n os Failed.

End Demo.

(** ** Basic facts *)

Ltac unfold_m := unfold bind, get, modify, ret, raise, send; simpl.

Lemma fold_index_link (links : list RawRecord) (p : Plugin) :
  fold_left index_link links p
  = set_index_items (_index_items p ++ map (index_item p) links) p.
Proof.
  revert p; induction links as [|link links IH]; intros p; simpl.
  - destruct p; unfold set_index_items; simpl. now rewrite app_nil_r.
  - rewrite IH. destruct p; unfold set_index_items, index_link; simpl.
    now rewrite <- app_assoc.
Qed.

Lemma absorb_page (r : Request) (p : list RawRecord) (w : World) :
  with_self (fun s => fold_left index_link p s) (with_net r w)
  = fetched [r] p w.
Proof.
  unfold with_self, with_net, fetched; simpl. now rewrite fold_index_link.
Qed.

Lemma fetched_fetched reqs1 links1 reqs2 links2 (w : World) :
  fetched reqs2 links2 (fetched reqs1 links1 w)
  = fetched (reqs1 ++ reqs2) (links1 ++ links2) w.
Proof.
  unfold fetched; simpl. rewrite map_app, !app_assoc.
  destruct w as [[] ? ? ? ? ? ? ?]; reflexivity.
Qed.

Lemma fetched_nil (w : World) : fetched [] [] w = w.
Proof.
  destruct w as [[] ? ? ? ? ? ? ?]; unfold fetched, set_index_items; simpl.
  now rewrite !app_nil_r.
Qed.

Lemma total_count_nil : total_count [] = Some 1.
Proof. reflexivity. Qed.

Lemma falsy_Some (h : Headers) : falsy (Some h) = true -> h = [].
Proof. destruct h; simpl; congruence. Qed.

(** Only an empty or header-less response leaves the total at its
    default. *)
Lemma total_count_truthy (h : Headers) (n : Z) :
  total_count h = Some n -> n <> 1 -> falsy (Some h) = false.
Proof.
  destruct h; simpl; [|reflexivity].
  rewrite total_count_nil. congruence.
Qed.

(** ** One step of the generator *)

Section Resume.

Variables (l : Locals) (w : World).

Let req := page_request (_instance_url (self w)) (hdrs l) (offset l).

Lemma resume_exhausted :
  total l < offset l -> _get_links_resume l w = Ok StopIteration w.
Proof.
  intros H. unfold _get_links_resume.
  destruct (Z.leb_spec (offset l) (total l)); [lia|reflexivity].
Qed.

Lemma resume_failed :
  offset l <= total l ->
  remote w (length (net w)) req = Failed ->
  _get_links_resume l w = Raise RequestException (with_net req w).
Proof.
  intros Hle H. unfold _get_links_resume.
  destruct (Z.leb_spec (offset l) (total l)); [|lia].
  unfold req, page_request in *. unfold_m. now rewrite H.
Qed.

Lemma resume_not_ok (r : Response) :
  offset l <= total l ->
  remote w (length (net w)) req = Responded r ->
  ok r = false ->
  _get_links_resume l w
  = Ok StopIteration
       (with_log (warning_page (status_code r) (req_url req))
                 (with_net req w)).
Proof.
  intros Hle H Hok. unfold _get_links_resume.
  destruct (Z.leb_spec (offset l) (total l)); [|lia].
  unfold req, page_request in *. unfold_m. rewrite H, Hok. reflexivity.
Qed.

(** A successful page once the total is settled: the total and the
    remembered headers are carried over unchanged. *)
Lemma resume_yield (r : Response) (p : list RawRecord) :
  offset l <= total l ->
  falsy (response_headers l) = false ->
  remote w (length (net w)) req = Responded r ->
  ok r = true ->
  json r = Some p ->
  _get_links_resume l w
  = Ok (yield p (gen_suspended (advance 1 l))) (with_net req w).
Proof.
  intros Hle Hrh H Hok Hj. unfold _get_links_resume.
  destruct (Z.leb_spec (offset l) (total l)); [|lia].
  unfold req, page_request in *. unfold_m. rewrite H, Hok, Hrh. simpl. rewrite Hj.
  unfold advance. simpl. now rewrite Z.mul_1_r.
Qed.

(** A successful page while no headers are remembered: the total is
    taken from this response. *)
Lemma resume_capture (r : Response) (p : list RawRecord) (n : Z) :
  offset l <= total l ->
  falsy (response_headers l) = true ->
  remote w (length (net w)) req = Responded r ->
  ok r = true ->
  json r = Some p ->
  total_count (headers r) = Some n ->
  _get_links_resume l w
  = Ok (yield p (gen_suspended
                   {| offset := offset l + limit; total := n;
                      hdrs := hdrs l;
                      response_headers := Some (headers r) |}))
       (with_net req w).
Proof.
  intros Hle Hrh H Hok Hj Hn. unfold _get_links_resume.
  destruct (Z.leb_spec (offset l) (total l)); [|lia].
  unfold req, page_request in *. unfold_m. rewrite H, Hok, Hrh, Hn. simpl. now rewrite Hj.
Qed.

End Resume.

(** The first [next()] enters the body with offset 0 and total 1. *)
Lemma next_created (w : World) :
  _get_links_next gen_created w
  = _get_links_resume
      {| offset := 0; total := 1; hdrs := get_headers (_api_key (self w));
         response_headers := None |} w.
Proof. reflexivity. Qed.

(** Whatever a step does, it sends at most one request, a list-page
    one, and leaves the plugin, the stores and the threads alone. *)
Lemma resume_cases (l : Locals) (w : World) :
  let req := page_request (_instance_url (self w)) (hdrs l) (offset l) in
  (_get_links_resume l w = Ok StopIteration w /\ total l < offset l)
  \/ (exists e, _get_links_resume l w = Raise e (with_net req w)
                /\ offset l <= total l)
  \/ (exists r, _get_links_resume l w
                = Ok StopIteration
                     (with_log (warning_page (status_code r) (req_url req))
                               (with_net req w))
                /\ remote w (length (net w)) req = Responded r
                /\ ok r = false /\ offset l <= total l)
  \/ (exists r p l',
        _get_links_resume l w = Ok (yield p (gen_suspended l')) (with_net req w)
        /\ remote w (length (net w)) req = Responded r
        /\ ok r = true /\ json r = Some p /\ offset l <= total l
        /\ offset l' = offset l + limit /\ hdrs l' = hdrs l
        /\ (if falsy (response_headers l)
            then response_headers l' = Some (headers r)
                 /\ total_count (headers r) = Some (total l')
            else response_headers l' = response_headers l
                 /\ total l' = total l)).
Proof.
  intros req.
  destruct (Z.lt_ge_cases (total l) (offset l)) as [Hlt|Hle].
  { left. split; [now apply resume_exhausted|assumption]. }
  right.
  destruct (remote w (length (net w)) req) as [r|] eqn:Hr.
  2:{ left. exists RequestException. split; [now apply resume_failed|assumption]. }
  destruct (ok r) eqn:Hok.
  2:{ right; left. exists r. repeat split; try assumption.
      now apply resume_not_ok. }
  unfold _get_links_resume.
  destruct (Z.leb_spec (offset l) (total l)); [|lia].
  unfold req, page_request in *. unfold_m. rewrite Hr, Hok.
  destruct (falsy (response_headers l)) eqn:Hf.
  - destruct (total_count (headers r)) as [n|] eqn:Hn; simpl.
    + destruct (json r) as [p|] eqn:Hj.
      * right; right. eexists r, p, _. repeat split; try eassumption; reflexivity.
      * left. exists JSONDecodeError. now split.
    + left. exists ValueError. now split.
  - simpl. destruct (json r) as [p|] eqn:Hj.
    + right; right. eexists r, p, _. repeat split; try eassumption; reflexivity.
    + left. exists JSONDecodeError. now split.
Qed.

(** ** The consuming loop *)

Lemma for_link_in_S (fuel : nat) (g : Generator) (w : World) :
  for_link_in (S fuel) g w
  = match _get_links_next g w with
    | Ok (yield p g') w' =>
        for_link_in fuel g' (with_self (fun s => fold_left index_link p s) w')
    | Ok StopIteration w' => Ok tt w'
    | Raise e w' => Raise e w'
    | OutOfFuel => OutOfFuel
    end.
Proof.
  simpl. unfold bind at 1.
  destruct (_get_links_next g w) as [[p g'|] w'|e w'|]; reflexivity.
Qed.

(** More fuel does not change a result. *)
Lemma for_link_in_mono (fuel fuel' : nat) (g : Generator) (w : World) :
  for_link_in fuel g w <> OutOfFuel ->
  (fuel <= fuel')%nat ->
  for_link_in fuel' g w = for_link_in fuel g w.
Proof.
  revert fuel' g w; induction fuel as [|fuel IH]; intros fuel' g w Hr Hle.
  - now contradict Hr.
  - destruct fuel' as [|fuel']; [lia|].
    rewrite !for_link_in_S in *.
    destruct (_get_links_next g w) as [[p g'|] w'|e w'|]; try reflexivity.
    apply IH; [assumption|lia].
Qed.

(** With the total settled, the loop ends within the pages that are
    left. *)
Lemma for_link_in_settled (n : nat) :
  forall (l : Locals) (w : World),
    falsy (response_headers l) = false ->
    total l - offset l < limit * Z.of_nat n ->
    for_link_in (S n) (gen_suspended l) w <> OutOfFuel.
Proof.
  unfold limit.
  induction n as [|n IH]; intros l w Hrh Hn; rewrite for_link_in_S; simpl;
    destruct (resume_cases l w)
      as [[-> ?]|[[e [-> ?]]|[[r [-> ?]]|(r & p & l' & -> & ? & ? & ? & ? & Ho & ? & Hc)]]];
    try discriminate; unfold limit in *.
  - lia.
  - rewrite Hrh in Hc. destruct Hc as [Hh Ht].
    apply IH; [congruence|lia].
Qed.

(** Every pagination run ends: the refresh loop returns or raises. *)
Lemma for_link_in_terminates (w : World) :
  exists fuel0, forall fuel, (fuel0 <= fuel)%nat ->
    for_link_in fuel gen_created w <> OutOfFuel.
Proof.
  assert (exists fuel0, for_link_in fuel0 gen_created w <> OutOfFuel)
    as [fuel0 H0].
  { pose proof (resume_cases
                  {| offset := 0; total := 1;
                     hdrs := get_headers (_api_key (self w));
                     response_headers := None |} w) as Hc.
    simpl in Hc.
    destruct Hc
      as [[E ?]|[[e [E ?]]|[[r [E ?]]|(r & p & l' & E & ? & ? & ? & ? & Ho & ? & Hh & Ht)]]].
    - exists 1%nat. rewrite for_link_in_S, next_created, E. discriminate.
    - exists 1%nat. rewrite for_link_in_S, next_created, E. discriminate.
    - exists 1%nat. rewrite for_link_in_S, next_created, E. discriminate.
    - destruct (falsy (response_headers l')) eqn:Hf.
      + exists 2%nat. rewrite for_link_in_S, next_created, E.
        rewrite Hh in Hf. apply falsy_Some in Hf. rewrite Hf in Ht.
        rewrite total_count_nil in Ht.
        rewrite for_link_in_S. simpl.
        rewrite resume_exhausted; [discriminate|]. unfold limit in *.
        injection Ht as Ht. lia.
      + exists (S (S (Z.to_nat (total l')))).
        rewrite for_link_in_S, next_created, E.
        apply for_link_in_settled; [assumption|]. unfold limit in *. lia. }
  exists fuel0. intros fuel Hle. now rewrite (for_link_in_mono fuel0 fuel).
Qed.

Lemma advance_advance (n m : nat) (l : Locals) :
  advance m (advance n l) = advance (n + m) l.
Proof.
  unfold advance; simpl. f_equal. lia.
Qed.

(** While the server keeps answering with decodable successes and the
    offsets stay within the settled total, the loop takes page after
    page: requests at consecutive offsets, links accumulated in order. *)
Lemma for_link_in_serves (rs : list Response) :
  forall (l : Locals) (w : World) (fuel : nat),
    falsy (response_headers l) = false ->
    serves w l rs ->
    (forall j, (j < length rs)%nat ->
               offset l + limit * Z.of_nat j <= total l) ->
    for_link_in (length rs + fuel) (gen_suspended l) w
    = for_link_in fuel (gen_suspended (advance (length rs) l))
        (fetched (page_requests (_instance_url (self w)) (hdrs l) (offset l)
                                (length rs))
                 (bodies rs) w).
Proof.
  induction rs as [|r rs IH]; intros l w fuel Hrh Hs Hin.
  - simpl. rewrite fetched_nil. unfold advance; simpl.
    rewrite Z.mul_0_r, Z.add_0_r. now destruct l.
  - destruct (Hs O r eq_refl) as (Hr & Hok & [p Hj]).
    simpl in Hr. rewrite Z.mul_0_r, Z.add_0_r, Nat.add_0_r in Hr.
    assert (Hle : offset l <= total l).
    { specialize (Hin O ltac:(simpl; lia)). simpl in Hin. lia. }
    change (length (r :: rs) + fuel)%nat with (S (length rs + fuel)).
    rewrite for_link_in_S. simpl _get_links_next.
    rewrite (resume_yield l w r p Hle Hrh Hr Hok Hj), absorb_page.
    rewrite IH.
    + rewrite fetched_fetched, advance_advance. simpl.
      unfold bodies. simpl. rewrite Hj. simpl.
      rewrite Z.mul_1_r. reflexivity.
    + assumption.
    + intros j r' Hj'. specialize (Hs (S j) r' Hj').
      simpl. rewrite length_app. simpl.
      replace (length (net w) + 1 + j)%nat with (length (net w) + S j)%nat by lia.
      replace (offset l + limit * Z.of_nat 1 + limit * Z.of_nat j)
        with (offset l + limit * Z.of_nat (S j)) by lia.
      exact Hs.
    + intros j Hj'. specialize (Hin (S j) ltac:(simpl; lia)).
      simpl total. simpl offset. lia.
Qed.

(** *** What a run leaves alone *)

Lemma after_refl (P : Request -> Prop) (w : World) : after P w w.
Proof.
  unfold after. repeat split. exists []. split; [now rewrite app_nil_r|constructor].
Qed.

Lemma after_trans (P : Request -> Prop) (w1 w2 w3 : World) :
  after P w1 w2 -> after P w2 w3 -> after P w1 w3.
Proof.
  intros (? & ? & ? & ? & ? & ? & n1 & E1 & F1) (? & ? & ? & ? & ? & ? & n2 & E2 & F2).
  unfold after. repeat split; try congruence.
  exists (n1 ++ n2). split; [rewrite E2, E1; now rewrite app_assoc|].
  apply Forall_app; now split.
Qed.

Lemma after_net (P : Request -> Prop) (r : Request) (w : World) :
  P r -> after P w (with_net r w).
Proof.
  intros HP. unfold after. repeat split. exists [r]. split; [reflexivity|].
  repeat constructor; assumption.
Qed.

Lemma after_log (P : Request -> Prop) (e : LogEntry) (w : World) :
  after P w (with_log e w).
Proof.
  unfold after. repeat split. exists []. simpl.
  split; [now rewrite app_nil_r|constructor].
Qed.

Lemma after_items (P : Request -> Prop) (v : list IndexItem) (w : World) :
  after P w (with_self (set_index_items v) w).
Proof.
  unfold after. repeat split. exists []. simpl.
  split; [now rewrite app_nil_r|constructor].
Qed.

Lemma next_after (g : Generator) (w : World) (P : Request -> Prop) :
  (forall off h,
      (match g with gen_suspended l => h = hdrs l
                  | _ => h = get_headers (_api_key (self w)) end) ->
      P (page_request (_instance_url (self w)) h off)) ->
  match _get_links_next g w with
  | Ok (yield _ (gen_suspended l')) w' =>
      after P w w'
      /\ hdrs l' = match g with gen_suspended l => hdrs l
                              | _ => get_headers (_api_key (self w)) end
  | Ok (yield _ _) _ => False
  | Ok StopIteration w' | Raise _ w' => after P w w'
  | OutOfFuel => False
  end.
Proof.
  intros HP.
  assert (forall l, P (page_request (_instance_url (self w)) (hdrs l) (offset l)) ->
            match _get_links_resume l w with
            | Ok (yield _ (gen_suspended l')) w' =>
                after P w w' /\ hdrs l' = hdrs l
            | Ok (yield _ _) _ => False
            | Ok StopIteration w' | Raise _ w' => after P w w'
            | OutOfFuel => False
            end) as Hres.
  { intros l HPl.
    destruct (resume_cases l w)
      as [[-> ?]|[[e [-> ?]]|[[r [-> ?]]|(r & p & l' & -> & ? & ? & ? & ? & ? & Hh & ?)]]].
    - apply after_refl.
    - now apply after_net.
    - apply after_trans
        with (with_net (page_request (_instance_url (self w)) (hdrs l)
                                     (offset l)) w);
        [now apply after_net|apply after_log].
    - split; [now apply after_net|assumption]. }
  destruct g as [|l|]; [rewrite next_created|simpl..].
  - apply (Hres {| offset := 0; total := 1;
      hdrs := get_headers (_api_key (self w)); response_headers := None |}).
    now apply HP.
  - apply Hres. now apply HP.
  - apply after_refl.
Qed.

Lemma after_fold (P : Request -> Prop) (p : list RawRecord) (w : World) :
  after P w (with_self (fun s => fold_left index_link p s) w).
Proof.
  replace (with_self (fun s => fold_left index_link p s) w)
    with (with_self
            (set_index_items
               (_index_items (self w) ++ map (index_item (self w)) p)) w)
    by (unfold with_self; now rewrite fold_index_link).
  apply after_items.
Qed.

Lemma for_link_in_after (fuel : nat) :
  forall (g : Generator) (w : World),
    match for_link_in fuel g w with
    | Ok _ w' | Raise _ w' =>
        after (paged_by match g with
                        | gen_suspended l => hdrs l
                        | _ => get_headers (_api_key (self w))
                        end) w w'
    | OutOfFuel => True
    end.
Proof.
  induction fuel as [|fuel IH]; intros g w; [exact I|].
  rewrite for_link_in_S.
  set (h := match g with
            | gen_suspended l => hdrs l
            | _ => get_headers (_api_key (self w))
            end).
  pose proof (next_after g w (paged_by h)) as Hn.
  destruct (_get_links_next g w) as [[p [|l'|]|] w'|e w'|];
    try (apply Hn; intros off h' Hh; subst h; destruct g; subst h';
         now repeat split);
    try (exfalso; apply Hn; intros off h' Hh; subst h; destruct g; subst h';
         now repeat split).
  destruct Hn as [Ha Hh].
  { intros off h' Hh; subst h; destruct g; subst h'; now repeat split. }
  specialize (IH (gen_suspended l')
                 (with_self (fun s => fold_left index_link p s) w')).
  simpl in IH. fold h in Hh. rewrite Hh in IH.
  destruct (for_link_in fuel (gen_suspended l') _) as [[] w''|e w''|];
    [| |exact I];
    (eapply after_trans; [exact Ha|]);
    (eapply after_trans; [apply after_fold|exact IH]).
Qed.

(** *** The refresh cycle in terms of its loop *)

Lemma fetchIndexItems_unfold (fuel : nat) (w : World) :
  fetchIndexItems fuel w
  = match for_link_in fuel gen_created w with
    | Ok _ w' => Ok tt (install w')
    | Raise e w' => Raise e w'
    | OutOfFuel => OutOfFuel
    end.
Proof.
  unfold fetchIndexItems, bind at 1.
  destruct (for_link_in fuel gen_created w) as [[] w'|e w'|]; reflexivity.
Qed.

Lemma fetchIndexItems_after (fuel : nat) (w : World) :
  match fetchIndexItems fuel w with
  | Ok _ w' | Raise _ w' =>
      after (paged_by (get_headers (_api_key (self w)))) w w'
  | OutOfFuel => True
  end.
Proof.
  rewrite fetchIndexItems_unfold.
  pose proof (for_link_in_after fuel gen_created w) as H. simpl in H.
  destruct (for_link_in fuel gen_created w) as [[] w'|e w'|]; try assumption.
Qed.


Lemma fetchIndexItems_terminates (w : World) :
  exists fuel0, forall fuel, (fuel0 <= fuel)%nat ->
    fetchIndexItems fuel w <> OutOfFuel.
Proof.
  destruct (for_link_in_terminates w) as [fuel0 H]. exists fuel0.
  intros fuel Hle. specialize (H fuel Hle). rewrite fetchIndexItems_unfold.
  destruct (for_link_in fuel gen_created w) as [[] w'|e w'|];
    [discriminate|discriminate|now contradict H].
Qed.

(** [__init__] with nothing configured gives the sample world. *)
Lemma Plugin__init___fresh (server : nat -> Request -> HttpOutcome) :
  Plugin__init__ [] "readeck" ["file:/plugins/readeck/readeck.svg"] server
  = Ok tt (Demo.fresh server).
Proof. reflexivity. Qed.

(** [__del__] on it: the thread still makes its first callback, which
    fails here, and is gone when [join] returns. *)
Lemma Plugin__del___fresh :
  option_map threads
    (world_of (Plugin__del__ 3 (Demo.fresh (Demo.always Failed))))
  = Some [{| __stop_event := true; __callback := bound_fetchIndexItems;
             __cache_length := 900; pc := pc_exited |}].
Proof. reflexivity. Qed.

(** A cycle that returns leaves the accumulator empty, as [__init__]
    does. *)
Lemma fetchIndexItems_resets (fuel : nat) (w w' : World) :
  fetchIndexItems fuel w = Ok tt w' -> _index_items (self w') = [].
Proof.
  rewrite fetchIndexItems_unfold.
  destruct (for_link_in fuel gen_created w) as [[] w1|e w1|]; try discriminate.
  intros [= <-]. reflexivity.
Qed.

(** ** A run of successful pages from a fresh generator *)

Lemma serves_tail (w : World) (l : Locals) (r : Response) (p : list RawRecord)
    (rs : list Response) (rh : option Headers) (n : Z) :
  serves w l (r :: rs) ->
  serves (fetched [page_request (_instance_url (self w)) (hdrs l) (offset l)]
                  p w)
         {| offset := offset l + limit; total := n; hdrs := hdrs l;
            response_headers := rh |} rs.
Proof.
  intros Hs j r' Hj. specialize (Hs (S j) r' Hj). simpl.
  rewrite length_app. simpl.
  replace (length (net w) + 1 + j)%nat with (length (net w) + S j)%nat by lia.
  replace (offset l + limit + limit * Z.of_nat j)
    with (offset l + limit * Z.of_nat (S j)) by lia.
  exact Hs.
Qed.

Lemma reaches_within (rs : list Response) : reaches_page rs -> pages_within rs.
Proof.
  destruct rs as [|r0 rs]; [trivial|].
  intros (T & HT & Hle). exists T. split; [assumption|].
  simpl length in Hle. unfold limit in *. lia.
Qed.

Lemma run_pages (w : World) (rs : list Response) (fuel : nat) :
  serves w (start_locals w) rs ->
  pages_within rs ->
  for_link_in (length rs + fuel) gen_created w
  = for_link_in fuel
      (generator_after w rs)
      (fetched (page_requests (_instance_url (self w))
                              (get_headers (_api_key (self w))) 0 (length rs))
               (bodies rs) w).
Proof.
  intros Hs Hr. destruct rs as [|r0 rs].
  { simpl. now rewrite fetched_nil. }
  destruct Hr as (T & HT & Hle).
  destruct (Hs O r0 eq_refl) as (Hr0 & Hok & [p Hj]).
  simpl in Hr0. rewrite Nat.add_0_r in Hr0.
  change (length (r0 :: rs) + fuel)%nat with (S (length rs + fuel)).
  rewrite for_link_in_S, next_created.
  fold (start_locals w).
  rewrite (resume_capture (start_locals w) w r0 p T); try assumption;
    try reflexivity; [|simpl; lia].
  rewrite absorb_page. unfold generator_after, locals_after.
  rewrite HT. simpl default.
  destruct rs as [|r1 rs].
  { simpl. unfold bodies. simpl. rewrite Hj, app_nil_r. reflexivity. }
  rewrite for_link_in_serves.
  - rewrite fetched_fetched. simpl hdrs. simpl offset.
    unfold bodies. simpl. rewrite Hj. simpl.
    unfold advance. simpl.
    repeat f_equal. unfold limit in *. lia.
  - simpl. eapply total_count_truthy; [exact HT|].
    simpl length in Hle. unfold limit in Hle. lia.
  - apply (serves_tail w (start_locals w) r0 p (r1 :: rs)). exact Hs.
  - intros j Hlt. simpl. simpl length in *. unfold limit in *. lia.
Qed.

Lemma sent_fetched {A} (a : A) (reqs : list Request) (links : list RawRecord)
    (w : World) :
  sent w (Ok a (fetched reqs links w)) = reqs.
Proof. unfold sent; simpl. apply drop_app_length. Qed.

(** ** Pagination *)

(** C5. With a total of 250 reported by the first page, a page limit of
    100 and every page request answered successfully, the pager sends
    exactly three list-page requests, at offsets 0, 100 and 200, and then
    stops: the loop returns, and nothing else was sent. *)
Theorem pager_total_250_three_requests
    (w : World) (r0 r1 r2 : Response) (fuel : nat) :
  serves w (start_locals w) [r0; r1; r2] ->
  total_count (headers r0) = Some 250 ->
  (4 <= fuel)%nat ->
  let u := _instance_url (self w) in
  let h := get_headers (_api_key (self w)) in
  for_link_in fuel gen_created w
  = Ok tt (fetched [page_request u h 0; page_request u h 100;
                    page_request u h 200]
                   (bodies [r0; r1; r2]) w)
  /\ sent w (for_link_in fuel gen_created w)
     = [page_request u h 0; page_request u h 100; page_request u h 200]
  /\ map req_url (sent w (for_link_in fuel gen_created w))
     = [u +:+ "/api/bookmarks?limit=100&offset=0";
        u +:+ "/api/bookmarks?limit=100&offset=100";
        u +:+ "/api/bookmarks?limit=100&offset=200"].
Proof.
  intros Hs HT Hfuel u h.
  assert (E : for_link_in fuel gen_created w
              = Ok tt (fetched [page_request u h 0; page_request u h 100;
                                page_request u h 200]
                               (bodies [r0; r1; r2]) w)).
  { assert (E4 : for_link_in 4 gen_created w
                 = Ok tt (fetched [page_request u h 0; page_request u h 100;
                                   page_request u h 200]
                                  (bodies [r0; r1; r2]) w)).
    { change 4%nat with (length [r0; r1; r2] + 1)%nat.
      rewrite run_pages;
        [|assumption|exists 250; split; [assumption|unfold limit; simpl; lia]].
      rewrite for_link_in_S. simpl _get_links_next.
      rewrite resume_exhausted; [reflexivity|].
      simpl. rewrite HT. unfold limit. simpl. lia. }
    rewrite (for_link_in_mono 4 fuel); [exact E4|now rewrite E4|assumption]. }
  rewrite E, sent_fetched. repeat split; reflexivity.
Qed.

(** A constant server reporting 250 bookmarks, queried from a fresh
    plugin. *)
Lemma pager_total_250_witness :
  sent (Demo.fresh (Demo.always (Responded (Demo.page "250" "x"))))
       (for_link_in 4 gen_created
          (Demo.fresh (Demo.always (Responded (Demo.page "250" "x")))))
  = [page_request "http://localhost:8000" (get_headers EmptyString) 0;
     page_request "http://localhost:8000" (get_headers EmptyString) 100;
     page_request "http://localhost:8000" (get_headers EmptyString) 200].
Proof.
  refine (proj1 (proj2 (pager_total_250_three_requests
            (Demo.fresh (Demo.always (Responded (Demo.page "250" "x"))))
            (Demo.page "250" "x") (Demo.page "250" "x") (Demo.page "250" "x")
            4 _ _ _))).
  - intros j r Hj. destruct j as [|[|[|j]]]; simpl in Hj;
      try discriminate; injection Hj as <-;
      (split; [reflexivity|split; [reflexivity|eexists; reflexivity]]).
  - reflexivity.
  - lia.
Defined.

(** C10. When the first successful page carries no Total-Count header
    the captured total is the default 1, the next offset 100 exceeds it,
    and the run ends after that single request, whatever the server
    holds. *)
Theorem no_total_count_single_page
    (w : World) (r : Response) (p : list RawRecord) (fuel : nat) :
  next_answer w [] = Responded r ->
  ok r = true ->
  json r = Some p ->
  headers_get "Total-Count" (headers r) = None ->
  (2 <= fuel)%nat ->
  _get_links_next gen_created w
  = Ok (yield p (gen_suspended
                   {| offset := 100; total := 1;
                      hdrs := get_headers (_api_key (self w));
                      response_headers := Some (headers r) |}))
       (with_net (first_request w) w)
  /\ for_link_in fuel gen_created w
     = Ok tt (fetched [first_request w] p w)
  /\ sent w (for_link_in fuel gen_created w) = [first_request w].
Proof.
  intros Hr Hok Hj Hh Hfuel.
  unfold next_answer in Hr. simpl in Hr. rewrite Nat.add_0_r in Hr.
  assert (HT : total_count (headers r) = Some 1)
    by (unfold total_count; now rewrite Hh).
  assert (E1 : _get_links_next gen_created w
               = Ok (yield p (gen_suspended
                                {| offset := 100; total := 1;
                                   hdrs := get_headers (_api_key (self w));
                                   response_headers := Some (headers r) |}))
                    (with_net (first_request w) w)).
  { rewrite next_created.
    now rewrite (resume_capture _ w r p 1). }
  assert (E2 : for_link_in 2 gen_created w
               = Ok tt (fetched [first_request w] p w)).
  { rewrite for_link_in_S, E1, absorb_page, for_link_in_S.
    simpl _get_links_next. rewrite resume_exhausted; [reflexivity|simpl; lia]. }
  split; [exact E1|].
  rewrite (for_link_in_mono 2 fuel), E2; [|now rewrite E2|assumption].
  split; [reflexivity|apply sent_fetched].
Qed.

(** A server holding far more than one page that sends no Total-Count. *)
Lemma no_total_count_witness :
  sent (Demo.fresh (Demo.always (Responded
          {| status_code := 200; headers := [("Content-Type", "text/json")];
             json := Some (repeat (Demo.bookmark "x" false) 100) |})))
       (for_link_in 2 gen_created
          (Demo.fresh (Demo.always (Responded
             {| status_code := 200; headers := [("Content-Type", "text/json")];
                json := Some (repeat (Demo.bookmark "x" false) 100) |}))))
  = [page_request "http://localhost:8000" (get_headers EmptyString) 0].
Proof.
  refine (proj2 (proj2 (no_total_count_single_page
            (Demo.fresh (Demo.always (Responded
               {| status_code := 200;
                  headers := [("Content-Type", "text/json")];
                  json := Some (repeat (Demo.bookmark "x" false) 100) |})))
            _ _ 2 eq_refl eq_refl eq_refl eq_refl _))).
  lia.
Defined.

(** Once the total is settled (headers are remembered, or the run is
    over anyway), later pages cannot change it. *)
Lemma resumes_total (l l' : Locals) :
  resumes l l' ->
  falsy (response_headers l) = false \/ total l < offset l ->
  total l' = total l.
Proof.
  induction 1 as [l|l l' l'' w w' p Hstep Hrest IH]; intros Hinv;
    [reflexivity|].
  simpl in Hstep.
  destruct (resume_cases l w)
    as [[E ?]|[[e [E ?]]|[[r [E ?]]|(r & q & k & E & ? & ? & ? & Hle & Ho & ? & Hc)]]];
    rewrite E in Hstep; try discriminate.
  injection Hstep as <- <- <-.
  destruct Hinv as [Hrh|Hlt]; [|lia].
  rewrite Hrh in Hc. destruct Hc as [Hh Ht].
  rewrite <- Ht. apply IH. left. congruence.
Qed.

(** C8. The total is taken from the first successful page of a run; no
    later successful page, whatever Total-Count it reports and in
    whatever world it is fetched, changes the bound of the loop. *)
Theorem total_captured_once
    (w0 w1 : World) (p : list RawRecord) (l1 l' : Locals) :
  _get_links_next gen_created w0 = Ok (yield p (gen_suspended l1)) w1 ->
  resumes l1 l' ->
  (exists r0, next_answer w0 [] = Responded r0
              /\ total_count (headers r0) = Some (total l1))
  /\ total l' = total l1.
Proof.
  intros Hfirst Hres. rewrite next_created in Hfirst.
  destruct (resume_cases (start_locals w0) w0)
    as [[E ?]|[[e [E ?]]|[[r [E ?]]|(r & q & k & E & Hr & ? & ? & ? & Ho & ? & Hh & Ht)]]];
    unfold start_locals in E; rewrite E in Hfirst; try discriminate.
  injection Hfirst as <- <- <-.
  split.
  - exists r. split; [|assumption].
    unfold next_answer. simpl. rewrite Nat.add_0_r. exact Hr.
  - apply resumes_total; [assumption|].
    destruct (falsy (response_headers k)) eqn:Hf; [right|now left].
    rewrite Hh in Hf. apply falsy_Some in Hf.
    rewrite Hf, total_count_nil in Ht. injection Ht as <-.
    simpl in Ho. unfold limit in Ho. lia.
Qed.

(** The first page reports 250, the second 7: the third request is
    still made under the bound 250. *)
Lemma total_captured_once_witness :
  total {| offset := 300; total := 250; hdrs := get_headers EmptyString;
           response_headers := Some (headers (Demo.page "250" "x")) |}
  = 250.
Proof.
  pose (srv := Demo.scripted [Responded (Demo.page "250" "x");
                              Responded (Demo.page "7" "y");
                              Responded (Demo.page "9999" "z")]).
  refine (proj2 (total_captured_once (Demo.fresh srv) _ _
                   {| offset := 100; total := 250; hdrs := get_headers EmptyString;
                      response_headers := Some (headers (Demo.page "250" "x")) |}
                   _ eq_refl _)).
  eapply (resumes_next _ _ _ (with_net (first_request (Demo.fresh srv))
                                       (Demo.fresh srv)));
    [reflexivity|].
  eapply (resumes_next _ _ _
            (with_net (page_request "http://localhost:8000" (get_headers EmptyString) 100)
               (with_net (first_request (Demo.fresh srv)) (Demo.fresh srv))));
    [reflexivity|].
  apply resumes_here.
Defined.

(** ** Runs that end in an error *)

Lemma length_page_requests (u : string) (h : Headers) (n : nat) :
  forall off, length (page_requests u h off n) = n.
Proof. induction n as [|n IH]; intros off; simpl; [|rewrite IH]; reflexivity. Qed.

Lemma page_requests_snoc (u : string) (h : Headers) (n : nat) :
  forall off,
    page_requests u h off n ++ [page_request u h (off + limit * Z.of_nat n)]
    = page_requests u h off (S n).
Proof.
  induction n as [|n IH]; intros off.
  - simpl. now rewrite Z.mul_0_r, Z.add_0_r.
  - change (page_requests u h off (S (S n)))
      with (page_request u h off :: page_requests u h (off + limit) (S n)).
    rewrite <- (IH (off + limit)).
    replace (off + limit * Z.of_nat (S n))
      with (off + limit + limit * Z.of_nat n) by lia.
    reflexivity.
Qed.

Lemma with_net_fetched (r : Request) (reqs : list Request)
    (links : list RawRecord) (w : World) :
  with_net r (fetched reqs links w) = fetched (reqs ++ [r]) links w.
Proof. unfold with_net, fetched; simpl. now rewrite app_assoc. Qed.

Lemma next_generator_after (w w' : World) (rs : list Response) :
  _api_key (self w') = _api_key (self w) ->
  _get_links_next (generator_after w rs) w'
  = _get_links_resume (locals_after w rs) w'.
Proof.
  intros Hk. destruct rs; [|reflexivity].
  simpl generator_after. rewrite next_created. simpl. unfold start_locals.
  now rewrite Hk.
Qed.

Lemma locals_after_offset (w : World) (rs : list Response) :
  offset (locals_after w rs) = limit * Z.of_nat (length rs).
Proof. destruct rs; reflexivity. Qed.

Lemma locals_after_hdrs (w : World) (rs : list Response) :
  hdrs (locals_after w rs) = get_headers (_api_key (self w)).
Proof. destruct rs; reflexivity. Qed.

Lemma reaches_page_le (w : World) (rs : list Response) :
  reaches_page rs -> offset (locals_after w rs) <= total (locals_after w rs).
Proof.
  destruct rs as [|r0 rs]; simpl; [lia|].
  intros (T & -> & Hle). exact Hle.
Qed.

(** The step after the pages [rs], in any world that agrees with the
    one the run was started in on the instance URL, the API key, the
    server and the number of requests sent. *)
Lemma next_after_pages (w w' : World) (rs : list Response) :
  reaches_page rs ->
  _instance_url (self w') = _instance_url (self w) ->
  _api_key (self w') = _api_key (self w) ->
  remote w' = remote w ->
  length (net w') = (length (net w) + length rs)%nat ->
  let req := page_request (_instance_url (self w))
                          (get_headers (_api_key (self w)))
                          (limit * Z.of_nat (length rs)) in
  _get_links_next (generator_after w rs) w'
  = match next_answer w rs with
    | Failed => Raise RequestException (with_net req w')
    | Responded bad =>
        if ok bad then _get_links_next (generator_after w rs) w'
        else Ok StopIteration
               (with_log (warning_page (status_code bad) (req_url req))
                         (with_net req w'))
    end.
Proof.
  intros Hreach Hu Hk Hrem Hlen req.
  assert (Hreq : page_request (_instance_url (self w'))
                              (hdrs (locals_after w rs))
                              (offset (locals_after w rs)) = req).
  { now rewrite Hu, locals_after_hdrs, locals_after_offset. }
  assert (Hans : remote w' (length (net w'))
                        (page_request (_instance_url (self w'))
                                      (hdrs (locals_after w rs))
                                      (offset (locals_after w rs)))
                 = next_answer w rs).
  { rewrite Hreq. unfold next_answer. now rewrite Hrem, Hlen. }
  pose proof (reaches_page_le w rs Hreach) as Hle.
  destruct (next_answer w rs) as [bad|] eqn:Hn.
  - destruct (ok bad) eqn:Hok; [reflexivity|].
    rewrite next_generator_after by assumption.
    rewrite (resume_not_ok _ w' bad Hle Hans Hok). now rewrite Hreq.
  - rewrite next_generator_after by assumption.
    rewrite (resume_failed _ w' Hle Hans). now rewrite Hreq.
Qed.

(** The loop of the refresh cycle when the request after the pages [rs]
    does not succeed: a failed response ends it with a warning, a
    transport failure escapes from it. *)
Lemma for_link_in_until_error (w : World) (rs : list Response) :
  serves w (start_locals w) rs ->
  reaches_page rs ->
  let u := _instance_url (self w) in
  let h := get_headers (_api_key (self w)) in
  let w' := fetched (page_requests u h 0 (S (length rs))) (bodies rs) w in
  match next_answer w rs with
  | Failed =>
      for_link_in (S (length rs)) gen_created w = Raise RequestException w'
  | Responded bad =>
      ok bad = false ->
      for_link_in (S (length rs)) gen_created w
      = Ok tt (with_log (warning_page (status_code bad)
                           (page_url u (limit * Z.of_nat (length rs)))) w')
  end.
Proof.
  intros Hs Hreach u h w'.
  assert (E : for_link_in (S (length rs)) gen_created w
              = for_link_in 1 (generator_after w rs)
                  (fetched (page_requests u h 0 (length rs)) (bodies rs) w)).
  { replace (S (length rs)) with (length rs + 1)%nat by lia.
    apply run_pages; [assumption|now apply reaches_within]. }
  pose proof (next_after_pages w
                (fetched (page_requests u h 0 (length rs)) (bodies rs) w) rs
                Hreach eq_refl eq_refl eq_refl) as Hn.
  simpl in Hn. rewrite length_app, length_page_requests in Hn.
  specialize (Hn eq_refl).
  assert (Hw' : with_net (page_request u h (limit * Z.of_nat (length rs)))
                  (fetched (page_requests u h 0 (length rs)) (bodies rs) w)
                = w').
  { rewrite with_net_fetched. unfold w'. f_equal.
    rewrite <- page_requests_snoc. now rewrite Z.add_0_l. }
  destruct (next_answer w rs) as [bad|].
  - intros Hok. rewrite Hok in Hn.
    rewrite E, for_link_in_S, Hn. fold u h. now rewrite Hw'.
  - rewrite E, for_link_in_S, Hn. fold u h. now rewrite Hw'.
Qed.

Lemma _fetch_results_S (fuel : nat) (g : Generator) (w : World) :
  _fetch_results (S fuel) g w
  = match _get_links_next g w with
    | Ok (yield p g') w' =>
        match _fetch_results fuel g' w' with
        | Ok rest w'' => Ok (p ++ rest) w''
        | Raise e w'' => Raise e w''
        | OutOfFuel => OutOfFuel
        end
    | Ok StopIteration w' => Ok [] w'
    | Raise e w' => Raise e w'
    | OutOfFuel => OutOfFuel
    end.
Proof.
  simpl. unfold bind at 1.
  destruct (_get_links_next g w) as [[p g'|] w'|e w'|]; reflexivity.
Qed.

Lemma with_net_alone (r : Request) (w : World) :
  with_net r w = fetched [r] [] w.
Proof. rewrite <- (fetched_nil w) at 1. apply with_net_fetched. Qed.







(** ** Errors during a refresh cycle *)

(** C2 as stated fails: with the server unreachable the call into the
    HTTP library raises, nothing in the plugin catches it, and the
    refresh cycle passes it on to its caller without logging a warning
    and without touching the index. *)
Lemma transport_error_escapes_refresh :
  fetchIndexItems 1 (Demo.fresh (Demo.always Failed))
  = Raise RequestException
      (with_net (first_request (Demo.fresh (Demo.always Failed)))
                (Demo.fresh (Demo.always Failed)))
  /\ forall fuel, returns (fetchIndexItems fuel (Demo.fresh (Demo.always Failed)))
                  = false.
Proof.
  split; [reflexivity|].
  intros [|fuel]; reflexivity.
Qed.

(** C2, amended. A page answered with a response that is not [ok] is
    logged as a warning with its status and URL, is the last request of
    the run, and lets the refresh cycle return normally with what was
    gathered. A connection failure or timeout is not caught: the cycle
    raises to its caller, logs nothing and installs nothing. *)
Theorem page_error_ends_pagination
    (w : World) (rs : list Response) (fuel : nat) :
  serves w (start_locals w) rs ->
  reaches_page rs ->
  page_error (next_answer w rs) ->
  (length rs < fuel)%nat ->
  let u := _instance_url (self w) in
  let h := get_headers (_api_key (self w)) in
  sent w (fetchIndexItems fuel w) = page_requests u h 0 (S (length rs))
  /\ match next_answer w rs with
     | Responded bad =>
         exists w', fetchIndexItems fuel w = Ok tt w'
                    /\ log w'
                       = log w
                         ++ [warning_page (status_code bad)
                               (page_url u (limit * Z.of_nat (length rs)));
                             info_indexed (length (_index_items (self w)
                                                   ++ map (index_item (self w))
                                                          (bodies rs)))]
                    /\ index w' = _index_items (self w)
                                  ++ map (index_item (self w)) (bodies rs)
     | Failed =>
         exists w', fetchIndexItems fuel w = Raise RequestException w'
                    /\ log w' = log w /\ index w' = index w
     end.
Proof.
  intros Hs Hreach Herr Hfuel u h.
  pose proof (for_link_in_until_error w rs Hs Hreach) as Hloop.
  cbv zeta in Hloop.
  assert (E : forall r, for_link_in (S (length rs)) gen_created w = r ->
                        r <> OutOfFuel ->
                        for_link_in fuel gen_created w = r).
  { intros r <- Hne. apply for_link_in_mono; [assumption|lia]. }
  rewrite fetchIndexItems_unfold.
  destruct (next_answer w rs) as [bad|]; simpl in Herr.
  - specialize (Hloop Herr). rewrite (E _ Hloop) by discriminate.
    split; [unfold sent; simpl; apply drop_app_length|].
    eexists. split; [reflexivity|]. simpl.
    rewrite length_app, length_map, <- app_assoc. split; reflexivity.
  - rewrite (E _ Hloop) by discriminate.
    split; [unfold sent; simpl; apply drop_app_length|].
    eexists. split; [reflexivity|]. split; reflexivity.
Qed.

(** The first page is answered 404. *)
Lemma page_error_witness :
  exists w',
    fetchIndexItems 1 (Demo.fresh (Demo.always (Responded Demo.not_found)))
    = Ok tt w'
    /\ log w'
       = [warning_page 404
            "http://localhost:8000/api/bookmarks?limit=100&offset=0";
          info_indexed 0]
    /\ index w' = [].
Proof.
  refine (proj2 (page_error_ends_pagination
                   (Demo.fresh (Demo.always (Responded Demo.not_found)))
                   [] 1 _ I eq_refl _)).
  - intros j r Hj. destruct j; discriminate.
  - simpl. lia.
Defined.

(** ** Record transformer *)

(** C7. The display text is the title, or the url when the title is
    empty, with the star marker in front when the bookmark is marked;
    the filter string is url, title and the comma-joined labels, joined
    by commas. The specification's sample record comes out as stated. *)
Theorem transformer_text_and_filter (p : Plugin) (b : RawRecord) :
  text (_gen_item p b)
  = (if bk_is_marked b then "⭐ " else EmptyString)
    +:+ match bk_title b with
        | EmptyString => bk_url b
        | String _ _ => bk_title b
        end
  /\ _create_filters b
     = bk_url b +:+ "," +:+ bk_title b +:+ "," +:+ Py.join "," (bk_labels b)
  /\ forall (i hr : string) (archived : bool),
       let sample := {| bk_id := i; bk_url := "http://x"; bk_title := EmptyString;
                        bk_labels := ["a"; "b"]; bk_is_marked := true;
                        bk_is_archived := archived; bk_href := hr |} in
       text (_gen_item p sample) = "⭐ http://x"
       /\ _create_filters sample = "http://x,,a,b".
Proof.
  split; [|split].
  - unfold _gen_item, or_else, truthy; simpl.
    destruct (bk_is_marked b), (bk_title b); reflexivity.
  - reflexivity.
  - intros i hr archived sample. split; reflexivity.
Qed.

(** ** Actions *)

Lemma _archive_bookmark_unfold (fuel : nat) (bookmark_id : string) (w : World) :
  let w1 := with_net (patch_request w bookmark_id)
              (with_log (debug_about_to PATCH
                           (req_url (patch_request w bookmark_id))) w) in
  _archive_bookmark fuel bookmark_id w
  = match remote w (length (net w)) (patch_request w bookmark_id) with
    | Responded r =>
        if ok r then fetchIndexItems fuel w1
        else Ok tt (with_log (warning_response (status_code r)) w1)
    | Failed => Raise RequestException w1
    end.
Proof.
  unfold _archive_bookmark, patch_request. unfold_m.
  destruct (remote w (length (net w)) _) as [r|]; [|reflexivity].
  destruct (ok r); reflexivity.
Qed.

Lemma _delete_bookmark_unfold (fuel : nat) (bookmark_id : string) (w : World) :
  let w1 := with_net (delete_request w bookmark_id)
              (with_log (debug_about_to DELETE
                           (req_url (delete_request w bookmark_id))) w) in
  _delete_bookmark fuel bookmark_id w
  = match remote w (length (net w)) (delete_request w bookmark_id) with
    | Responded r =>
        if ok r then fetchIndexItems fuel w1
        else Ok tt (with_log (warning_response (status_code r)) w1)
    | Failed => Raise RequestException w1
    end.
Proof.
  unfold _delete_bookmark, delete_request. unfold_m.
  destruct (remote w (length (net w)) _) as [r|]; [|reflexivity].
  destruct (ok r); reflexivity.
Qed.

(** A refresh after one request [r]: that request first, then list-page
    requests only. *)
Lemma sent_then_refresh (fuel : nat) (r : Request) (e : LogEntry) (w : World) :
  fetchIndexItems fuel (with_net r (with_log e w)) = OutOfFuel
  \/ exists gets,
       sent w (fetchIndexItems fuel (with_net r (with_log e w))) = r :: gets
       /\ Forall is_get gets.
Proof.
  pose proof (fetchIndexItems_after fuel (with_net r (with_log e w))) as H.
  destruct (fetchIndexItems fuel (with_net r (with_log e w))) as [[] w'|x w'|];
    [right|right|now left];
    destruct H as (_ & _ & _ & _ & _ & _ & gets & E & F);
    exists gets; (split; [|eapply Forall_impl; [exact F|now intros ? []]]);
    unfold sent; simpl in *; rewrite E, <- app_assoc; apply drop_app_length.
Qed.

Lemma _archive_bookmark_sent (fuel : nat) (bookmark_id : string) (w : World) :
  _archive_bookmark fuel bookmark_id w = OutOfFuel
  \/ exists gets,
       sent w (_archive_bookmark fuel bookmark_id w)
       = patch_request w bookmark_id :: gets
       /\ Forall is_get gets.
Proof.
  rewrite _archive_bookmark_unfold. cbv zeta.
  destruct (remote w (length (net w)) _) as [r|].
  - destruct (ok r); [apply sent_then_refresh|].
    right. exists []. split; [|constructor].
    unfold sent; simpl. apply drop_app_length.
  - right. exists []. split; [|constructor].
    unfold sent; simpl. apply drop_app_length.
Qed.

Lemma _delete_bookmark_sent (fuel : nat) (bookmark_id : string) (w : World) :
  _delete_bookmark fuel bookmark_id w = OutOfFuel
  \/ exists gets,
       sent w (_delete_bookmark fuel bookmark_id w)
       = delete_request w bookmark_id :: gets
       /\ Forall is_get gets.
Proof.
  rewrite _delete_bookmark_unfold. cbv zeta.
  destruct (remote w (length (net w)) _) as [r|].
  - destruct (ok r); [apply sent_then_refresh|].
    right. exists []. split; [|constructor].
    unfold sent; simpl. apply drop_app_length.
  - right. exists []. split; [|constructor].
    unfold sent; simpl. apply drop_app_length.
Qed.

Lemma _archive_bookmark_terminates (bookmark_id : string) (w : World) :
  exists fuel0, forall fuel, (fuel0 <= fuel)%nat ->
    _archive_bookmark fuel bookmark_id w <> OutOfFuel.
Proof.
  pose proof (_archive_bookmark_unfold) as U. cbv zeta in U.
  destruct (fetchIndexItems_terminates
              (with_net (patch_request w bookmark_id)
                 (with_log (debug_about_to PATCH
                              (req_url (patch_request w bookmark_id))) w)))
    as [fuel0 H].
  exists fuel0. intros fuel Hle. rewrite U.
  destruct (remote w (length (net w)) _) as [r|]; [|discriminate].
  destruct (ok r); [now apply H|discriminate].
Qed.

Lemma _delete_bookmark_terminates (bookmark_id : string) (w : World) :
  exists fuel0, forall fuel, (fuel0 <= fuel)%nat ->
    _delete_bookmark fuel bookmark_id w <> OutOfFuel.
Proof.
  pose proof (_delete_bookmark_unfold) as U. cbv zeta in U.
  destruct (fetchIndexItems_terminates
              (with_net (delete_request w bookmark_id)
                 (with_log (debug_about_to DELETE
                              (req_url (delete_request w bookmark_id))) w)))
    as [fuel0 H].
  exists fuel0. intros fuel Hle. rewrite U.
  destruct (remote w (length (net w)) _) as [r|]; [|discriminate].
  destruct (ok r); [now apply H|discriminate].
Qed.

(** No closure of the plugin sends a [DELETE]. *)
Lemma call_never_deletes (fuel : nat) (c : Callable) (w : World) :
  Forall not_delete (sent w (call fuel c w)).
Proof.
  destruct c as [u|u|u|]; simpl.
  - unfold sent; simpl. rewrite drop_all. constructor.
  - unfold sent; simpl. rewrite drop_all. constructor.
  - destruct (_archive_bookmark_sent fuel u w) as [->|(gets & -> & F)];
      [constructor|].
    constructor; [discriminate|].
    eapply Forall_impl; [exact F|]. unfold is_get, not_delete. congruence.
  - pose proof (fetchIndexItems_after fuel w) as H.
    destruct (fetchIndexItems fuel w) as [[] w'|x w'|]; [| |constructor];
      destruct H as (_ & _ & _ & _ & _ & _ & gets & E & F);
      unfold sent; simpl; rewrite E, drop_app_length;
      (eapply Forall_impl; [exact F|]);
      intros r [Hm _]; unfold not_delete; congruence.
Qed.

(** C1. The closure bound to the delete action of a search record is
    the one bound to its archive action: calling it runs
    [_archive_bookmark], whose request is the [PATCH] with
    [is_archived = true], followed at most by list-page requests. No
    action of a record ever sends a [DELETE]; [_delete_bookmark], which
    would, is bound to none of them. *)
Theorem delete_action_archives (p : Plugin) (b : RawRecord) (w : World) :
  callables_of "delete" (_gen_item p b) = [lambda_archive_bookmark (bk_id b)]
  /\ callables_of "archive" (_gen_item p b)
     = callables_of "delete" (_gen_item p b)
  /\ (forall fuel,
        call fuel (lambda_archive_bookmark (bk_id b)) w
        = _archive_bookmark fuel (bk_id b) w)
  /\ (exists fuel0, forall fuel, exists gets,
        sent w (call (fuel0 + fuel) (lambda_archive_bookmark (bk_id b)) w)
        = patch_request w (bk_id b) :: gets
        /\ Forall is_get gets)
  /\ Forall (fun a => forall fuel w',
                 Forall not_delete (sent w' (call fuel (action_callable a) w')))
            (actions (_gen_item p b))
  /\ (exists fuel0, forall fuel, exists gets,
        sent w (_delete_bookmark (fuel0 + fuel) (bk_id b) w)
        = delete_request w (bk_id b) :: gets
        /\ Forall is_get gets).
Proof.
  split; [reflexivity|]. split; [reflexivity|]. split; [reflexivity|].
  split; [|split].
  - destruct (_archive_bookmark_terminates (bk_id b) w) as [fuel0 H].
    exists fuel0. intros fuel. simpl.
    destruct (_archive_bookmark_sent (fuel0 + fuel) (bk_id b) w) as [E|Hs];
      [|exact Hs].
    exfalso. apply (H (fuel0 + fuel)%nat); [lia|exact E].
  - apply Forall_forall. intros a _ fuel w'. apply call_never_deletes.
  - destruct (_delete_bookmark_terminates (bk_id b) w) as [fuel0 H].
    exists fuel0. intros fuel.
    destruct (_delete_bookmark_sent (fuel0 + fuel) (bk_id b) w) as [E|Hs];
      [|exact Hs].
    exfalso. apply (H (fuel0 + fuel)%nat); [lia|exact E].
Qed.

(** ** Requests of the remote client *)

(** C4 at a concrete plugin: the list-page request carries the
    five-second timeout, as do its headers the bearer token and the user
    agent; the archive and delete requests carry the same two headers
    but are sent without any timeout. *)
Theorem mutating_requests_have_no_timeout :
  let w := Demo.fresh (Demo.always (Responded (Demo.page "1" "x"))) in
  map (fun r => (method r, req_timeout r)) (sent w (_archive_bookmark 2 "x" w))
  = [(PATCH, None); (GET, Some 5)]
  /\ map (fun r => (method r, req_timeout r)) (sent w (_delete_bookmark 2 "x" w))
     = [(DELETE, None); (GET, Some 5)]
  /\ Forall (fun r => headers_get "Authorization" (req_headers r)
                      = Some ("Bearer " +:+ _api_key (self w))
                      /\ headers_get "User-Agent" (req_headers r)
                         = Some user_agent)
            (sent w (_archive_bookmark 2 "x" w)
             ++ sent w (_delete_bookmark 2 "x" w)).
Proof.
  cbv zeta. split; [reflexivity|]. split; [reflexivity|].
  repeat constructor.
Qed.

(** ** Closures: termination and what they leave alone *)

Lemma after_same_threads (P : Request -> Prop) (w w' : World) :
  after P w w' -> same_threads w w'.
Proof. intros (? & ? & ? & ? & _). now repeat split. Qed.

Lemma call_same_threads (fuel : nat) (c : Callable) (w : World) :
  match call fuel c w with
  | Ok _ w' | Raise _ w' => same_threads w w'
  | OutOfFuel => True
  end.
Proof.
  destruct c as [u|u|u|]; simpl; try (now repeat split).
  - rewrite _archive_bookmark_unfold. cbv zeta.
    destruct (remote w (length (net w)) _) as [r|]; [|now repeat split].
    destruct (ok r); [|now repeat split].
    match goal with |- context [fetchIndexItems fuel ?w1] =>
      pose proof (fetchIndexItems_after fuel w1) as H;
      destruct (fetchIndexItems fuel w1) as [[] w'|e w'|]; try exact I;
      apply after_same_threads in H; exact H
    end.
  - pose proof (fetchIndexItems_after fuel w) as H.
    destruct (fetchIndexItems fuel w) as [[] w'|e w'|]; try exact I;
      now apply after_same_threads in H.
Qed.



Lemma call_terminates (c : Callable) (w : World) :
  exists fuel0, forall fuel, (fuel0 <= fuel)%nat -> call fuel c w <> OutOfFuel.
Proof.
  destruct c as [u|u|u|]; simpl.
  - exists O. discriminate.
  - exists O. discriminate.
  - apply _archive_bookmark_terminates.
  - apply fetchIndexItems_terminates.
Qed.

(** ** The scheduler thread, step by step *)

Lemma move_lookup (tid : nat) (v : PC) (w : World) (t : LinkFetcherThread) :
  threads w !! tid = Some t ->
  threads (move tid v w) !! tid = Some (at_pc v t).
Proof.
  intros H. unfold move; simpl. rewrite list_lookup_alter_eq, H. reflexivity.
Qed.

Lemma move_lookup_ne (tid j : nat) (v : PC) (w : World) :
  j <> tid -> threads (move tid v w) !! j = threads w !! j.
Proof.
  intros H. unfold move; simpl. apply list_lookup_alter_ne. congruence.
Qed.

Lemma move_same (tid : nat) (v : PC) (w : World) :
  self (move tid v w) = self w /\ net (move tid v w) = net w
  /\ length (threads (move tid v w)) = length (threads w).
Proof. unfold move; simpl. now rewrite length_alter. Qed.

(** A step at [wait]: the timeout is the thread's interval in seconds. *)
Lemma thread_step_wait (fuel tid : nat) (w : World) (t : LinkFetcherThread) :
  threads w !! tid = Some t -> pc t = pc_wait ->
  thread_step fuel tid w = Ok (did_wait (__cache_length t)) (move tid pc_check w).
Proof. intros H Hp. unfold thread_step. now rewrite H, Hp. Qed.

(** A step at the test with the stop signal set: the return. *)
Lemma thread_step_stopped (fuel tid : nat) (w : World) (t : LinkFetcherThread) :
  threads w !! tid = Some t -> pc t = pc_check -> __stop_event t = true ->
  thread_step fuel tid w = Ok did_return (move tid pc_exited w).
Proof. intros H Hp Hs. unfold thread_step. now rewrite H, Hp, Hs. Qed.

(** A step that runs the callback: entering [run], or at the test with
    the stop signal not set. *)
Lemma thread_step_callback (fuel tid : nat) (w : World) (t : LinkFetcherThread) :
  threads w !! tid = Some t ->
  pc t = pc_run \/ (pc t = pc_check /\ __stop_event t = false) ->
  thread_step fuel tid w = run_callback fuel tid t w.
Proof.
  intros H [Hp|[Hp Hs]]; unfold thread_step; rewrite H, Hp; [|rewrite Hs];
    reflexivity.
Qed.

Lemma thread_step_ended (fuel tid : nat) (w : World) (t : LinkFetcherThread) :
  threads w !! tid = Some t -> is_alive t = false ->
  thread_step fuel tid w = Ok did_nothing w.
Proof.
  intros H Ha. unfold thread_step. rewrite H.
  unfold is_alive in Ha. destruct (pc t); try discriminate; reflexivity.
Qed.

Lemma run_callback_cases (fuel tid : nat) (t : LinkFetcherThread) (w : World) :
  run_callback fuel tid t w = OutOfFuel
  \/ exists w0, same_threads w w0
       /\ (run_callback fuel tid t w = Ok did_callback (move tid pc_wait w0)
           \/ exists e, run_callback fuel tid t w
                        = Ok (did_die e) (move tid pc_exited w0)).
Proof.
  unfold run_callback. pose proof (call_same_threads fuel (__callback t) w) as H.
  destruct (call fuel (__callback t) w) as [[] w0|e w0|]; [right|right|now left];
    exists w0; (split; [exact H|]); [now left|right; now exists e].
Qed.



Lemma thread_step_terminates (tid : nat) (w : World) :
  exists fuel0, forall fuel, (fuel0 <= fuel)%nat ->
    thread_step fuel tid w <> OutOfFuel.
Proof.
  unfold thread_step. destruct (threads w !! tid) as [t|];
    [|exists O; discriminate].
  destruct (call_terminates (__callback t) w) as [fuel0 H].
  assert (forall fuel, (fuel0 <= fuel)%nat ->
                       run_callback fuel tid t w <> OutOfFuel) as Hr.
  { intros fuel Hle. specialize (H fuel Hle). unfold run_callback.
    destruct (call fuel (__callback t) w); [discriminate|discriminate|].
    now contradict H. }
  destruct (pc t); try (exists O; discriminate);
    [|destruct (__stop_event t); [exists O; discriminate|]];
    exists fuel0; exact Hr.
Qed.

(** A new thread is appended to the table, becomes the plugin's thread
    and is started. *)
Lemma spawn_ok (cb : Callable) (minutes : Z) (w : World) :
  spawn cb minutes w
  = Ok tt (with_threads
             (fun ts => ts ++ [at_pc pc_run
                                 (LinkFetcherThread__init__ cb minutes)])
             (with_self (set_thread (length (threads w))) w)).
Proof.
  unfold spawn, start. unfold_m.
  rewrite list_lookup_middle by reflexivity. simpl.
  unfold move, with_threads, with_self. simpl. do 2 f_equal.
  rewrite alter_app_r_alt by lia. now rewrite Nat.sub_diag.
Qed.

Lemma thread_run_S (fuel n tid : nat) (w : World) :
  thread_run fuel (S n) tid w
  = match thread_step fuel tid w with
    | Ok d w1 =>
        match thread_run fuel n tid w1 with
        | Ok ds w2 => Ok (d :: ds) w2
        | Raise e w2 => Raise e w2
        | OutOfFuel => OutOfFuel
        end
    | Raise e w1 => Raise e w1
    | OutOfFuel => OutOfFuel
    end.
Proof.
  simpl. unfold bind at 1.
  destruct (thread_step fuel tid w) as [d w1|e w1|]; reflexivity.
Qed.



(** A thread that is not running does nothing. *)
Lemma thread_run_ended (fuel n tid : nat) (w : World) (t : LinkFetcherThread) :
  threads w !! tid = Some t -> is_alive t = false ->
  thread_run fuel n tid w = Ok (repeat did_nothing n) w.
Proof.
  intros H Ha. induction n as [|n IH]; [reflexivity|].
  now rewrite thread_run_S, (thread_step_ended fuel tid w t H Ha), IH.
Qed.





(** ** Joining a stopped thread *)

Lemma touched_refl (tid : nat) (w : World) : touched tid w w.
Proof. now repeat split. Qed.

Lemma touched_trans (tid : nat) (w1 w2 w3 : World) :
  touched tid w1 w2 -> touched tid w2 w3 -> touched tid w1 w3.
Proof.
  intros (Ha & ? & ? & ?) (Hb & ? & ? & ?). repeat split; try congruence.
  intros j Hj. now rewrite Hb, Ha.
Qed.

Lemma touched_move (tid : nat) (v : PC) (w : World) :
  touched tid w (move tid v w).
Proof.
  repeat split; try apply move_same.
  intros j Hj. now apply move_lookup_ne.
Qed.

Lemma touched_same_threads (tid : nat) (w w' : World) :
  same_threads w w' -> touched tid w w'.
Proof. intros (E & ? & ?). repeat split; try assumption; now rewrite E. Qed.

Lemma join_S (fuel tid : nat) (w : World) :
  join (S fuel) tid w
  = match threads w !! tid with
    | Some t =>
        match pc t with
        | pc_created => Raise RuntimeError w
        | pc_exited => Ok tt w
        | _ => match thread_step fuel tid w with
               | Ok _ w1 => join fuel tid w1
               | Raise e w1 => Raise e w1
               | OutOfFuel => OutOfFuel
               end
        end
    | None => Raise RuntimeError w
    end.
Proof.
  simpl. destruct (threads w !! tid) as [t|]; [|reflexivity].
  destruct (pc t); try reflexivity; unfold bind;
    destruct (thread_step fuel tid w); reflexivity.
Qed.

Lemma join_exited (fuel tid : nat) (w : World) (t : LinkFetcherThread) :
  threads w !! tid = Some t -> pc t = pc_exited ->
  join (S fuel) tid w = Ok tt w.
Proof. intros H Hp. now rewrite join_S, H, Hp. Qed.

Lemma join_at_check (fuel tid : nat) (w : World) (t : LinkFetcherThread) :
  threads w !! tid = Some t -> pc t = pc_check -> __stop_event t = true ->
  join (2 + fuel) tid w = Ok tt (move tid pc_exited w).
Proof.
  intros H Hp Hs. change (2 + fuel)%nat with (S (S fuel)).
  rewrite join_S, H, Hp, (thread_step_stopped _ tid w t H Hp Hs).
  apply (join_exited fuel tid _ (at_pc pc_exited t)); [|reflexivity].
  now apply move_lookup.
Qed.

Lemma join_at_wait (fuel tid : nat) (w : World) (t : LinkFetcherThread) :
  threads w !! tid = Some t -> pc t = pc_wait -> __stop_event t = true ->
  join (3 + fuel) tid w = Ok tt (move tid pc_exited (move tid pc_check w)).
Proof.
  intros H Hp Hs. change (3 + fuel)%nat with (S (2 + fuel)).
  rewrite join_S, H, Hp, (thread_step_wait _ tid w t H Hp).
  apply (join_at_check fuel tid _ (at_pc pc_check t)); try reflexivity;
    [now apply move_lookup|exact Hs].
Qed.

(** Joining a thread whose stop signal is set returns, with the thread
    ended and every other thread as it was. *)
Lemma join_stopped (tid : nat) (w : World) (t : LinkFetcherThread) :
  threads w !! tid = Some t ->
  __stop_event t = true ->
  pc t <> pc_created ->
  exists fuel0, forall fuel, exists w',
    join (fuel0 + fuel) tid w = Ok tt w'
    /\ touched tid w w'
    /\ exists t', threads w' !! tid = Some t' /\ pc t' = pc_exited.
Proof.
  intros H Hs Hc. destruct (pc t) eqn:Hp; [congruence| | | |].
  - (* entering run: the first callback is still made *)
    destruct (call_terminates (__callback t) w) as [f Hf].
    exists (4 + f)%nat. intros fuel.
    change (4 + f + fuel)%nat with (S (3 + (f + fuel))).
    rewrite join_S, H, Hp.
    rewrite (thread_step_callback _ tid w t H (or_introl Hp)).
    specialize (Hf (3 + (f + fuel))%nat ltac:(lia)).
    destruct (run_callback_cases (3 + (f + fuel)) tid t w)
      as [Eo|(w0 & Hsame & [Ec|[e Ec]])].
    + exfalso. unfold run_callback in Eo.
      destruct (call (3 + (f + fuel)) (__callback t) w);
        [discriminate|discriminate|now apply Hf].
    + rewrite Ec.
      assert (Ht0 : threads (move tid pc_wait w0) !! tid = Some (at_pc pc_wait t)).
      { apply move_lookup. destruct Hsame as [-> _]. exact H. }
      rewrite (join_at_wait (f + fuel) tid _ _ Ht0 eq_refl Hs).
      eexists. split; [reflexivity|]. split.
      * apply (touched_trans tid w w0);
          [now apply touched_same_threads|].
        apply (touched_trans tid w0 (move tid pc_wait w0));
          [apply touched_move|].
        apply (touched_trans tid _ (move tid pc_check (move tid pc_wait w0)));
          apply touched_move.
      * eexists. split;
          [apply move_lookup; apply move_lookup; exact Ht0|reflexivity].
    + rewrite Ec.
      assert (Ht0 : threads (move tid pc_exited w0) !! tid
                    = Some (at_pc pc_exited t)).
      { apply move_lookup. destruct Hsame as [-> _]. exact H. }
      change (3 + (f + fuel))%nat with (S (2 + (f + fuel))).
      rewrite (join_exited _ tid _ _ Ht0 eq_refl).
      eexists. split; [reflexivity|]. split.
      * apply (touched_trans tid w w0);
          [now apply touched_same_threads|apply touched_move].
      * eexists. split; [exact Ht0|reflexivity].
  - exists 3%nat. intros fuel. rewrite (join_at_wait fuel tid w t H Hp Hs).
    eexists. split; [reflexivity|]. split.
    + apply (touched_trans tid w (move tid pc_check w)); apply touched_move.
    + eexists. split;
        [apply move_lookup; apply move_lookup; exact H|reflexivity].
  - exists 2%nat. intros fuel. rewrite (join_at_check fuel tid w t H Hp Hs).
    eexists. split; [reflexivity|]. split.
    + apply touched_move.
    + eexists. split; [apply move_lookup; exact H|reflexivity].
  - exists 1%nat. intros fuel. change (1 + fuel)%nat with (S fuel).
    rewrite (join_exited fuel tid w t H Hp).
    eexists. split; [reflexivity|]. split; [apply touched_refl|].
    now exists t.
Qed.

(** Lines 94-96 leave no thread alive. *)
Lemma retire_ok (w : World) :
  one_scheduler w ->
  exists fuel0, forall fuel, exists w',
    retire (fuel0 + fuel) w = Ok tt w'
    /\ no_scheduler w'
    /\ length (threads w') = length (threads w)
    /\ _cache_length (self w') = _cache_length (self w).
Proof.
  intros Hone. unfold retire. unfold_m.
  destruct (threads w !! _thread (self w)) as [t|] eqn:Ht.
  - destruct (is_alive t) eqn:Ha.
    + set (ws := with_threads (alter set_stop_event (_thread (self w))) w).
      assert (Hts : threads ws !! _thread (self w) = Some (set_stop_event t)).
      { unfold ws; simpl. now rewrite list_lookup_alter_eq, Ht. }
      destruct (join_stopped (_thread (self w)) ws _ Hts eq_refl)
        as [fuel0 Hj].
      { simpl. unfold is_alive in Ha. destruct (pc t); congruence. }
      exists fuel0. intros fuel.
      destruct (Hj fuel) as (w' & E & (Hoth & Hlen & _ & Hcl) & t' & Ht' & Hp').
      exists w'. unfold stop, modify. fold ws. split; [exact E|].
      split; [|split].
      * intros j tj Hjt.
        destruct (decide (j = _thread (self w))) as [->|Hne].
        -- rewrite Ht' in Hjt. injection Hjt as <-.
           unfold is_alive. now rewrite Hp'.
        -- rewrite (Hoth j Hne) in Hjt. unfold ws in Hjt; simpl in Hjt.
           rewrite list_lookup_alter_ne in Hjt by congruence.
           destruct (is_alive tj) eqn:Hal; [|reflexivity].
           now specialize (Hone j tj Hjt Hal).
      * rewrite Hlen. unfold ws; simpl. apply length_alter.
      * rewrite Hcl. reflexivity.
    + exists O. intros fuel. exists w. split; [reflexivity|].
      split; [|now split].
      intros j tj Hjt. destruct (is_alive tj) eqn:Hal; [|reflexivity].
      pose proof (Hone j tj Hjt Hal) as ->. congruence.
  - exists O. intros fuel. exists w. split; [reflexivity|].
    split; [|now split].
    intros j tj Hjt. destruct (is_alive tj) eqn:Hal; [|reflexivity].
    pose proof (Hone j tj Hjt Hal) as ->. congruence.
Qed.

(** ** Reconfiguration *)

(** C3 as stated fails for the credentials: setting the API key or the
    instance URL stores the value and writes the configuration, and
    that is all. The scheduler thread is not stopped, not joined and not
    replaced; it runs on and reads the new value at its next request. *)
Lemma credentials_setter_keeps_thread_running :
  let w := Demo.fresh (Demo.always Failed) in
  exists w',
    api_key_setter "secret" w = Ok tt w'
    /\ _api_key (self w') = "secret"
    /\ _thread (self w') = _thread (self w)
    /\ threads w' = [{| __stop_event := false;
                        __callback := bound_fetchIndexItems;
                        __cache_length := 900; pc := pc_run |}]
    /\ exists w'',
         instance_url_setter "https://readeck.example" w' = Ok tt w''
         /\ _thread (self w'') = _thread (self w)
         /\ threads w'' = threads w'.
Proof.
  cbv zeta. eexists. split; [reflexivity|].
  repeat split. eexists. split; [reflexivity|]. split; reflexivity.
Qed.

Lemma one_scheduler_spawned (w : World) (t : LinkFetcherThread) :
  no_scheduler w ->
  one_scheduler
    (with_threads (fun ts => ts ++ [t])
       (with_self (set_thread (length (threads w))) w)).
Proof.
  intros Hno j tj Hj Ha. simpl in *.
  destruct (Nat.lt_ge_cases j (length (threads w))) as [Hlt|Hge].
  - rewrite lookup_app_l in Hj by assumption.
    rewrite (Hno j tj Hj) in Ha. discriminate.
  - apply lookup_lt_Some in Hj. rewrite length_app in Hj. simpl in Hj. lia.
Qed.

(** C3, amended. Changing the refresh interval stops the plugin's
    thread when it is alive and waits for its end, so that no thread is
    alive when the replacement is constructed and started, and the
    replacement is then the only one alive. Changing the API key or the
    instance URL leaves the thread table and the plugin's thread as they
    are. In every case at most one scheduler is alive afterwards. *)
Theorem reconfiguration_keeps_one_scheduler
    (w : World) (value : Z) (url key : string) :
  one_scheduler w ->
  let minutes := if value <? 1 then 1 else value in
  (exists fuel0, forall fuel, exists w_joined w',
      cache_length_setter_until_joined (fuel0 + fuel) value w = Ok tt w_joined
      /\ no_scheduler w_joined
      /\ spawn bound_fetchIndexItems minutes w_joined = Ok tt w'
      /\ cache_length_setter (fuel0 + fuel) value w = Ok tt w'
      /\ threads w'
         = threads w_joined
           ++ [{| __stop_event := false; __callback := bound_fetchIndexItems;
                  __cache_length := minutes * 60; pc := pc_run |}]
      /\ _thread (self w') = length (threads w_joined)
      /\ one_scheduler w')
  /\ (exists w', instance_url_setter url w = Ok tt w'
                 /\ threads w' = threads w
                 /\ _thread (self w') = _thread (self w)
                 /\ one_scheduler w')
  /\ (exists w', api_key_setter key w = Ok tt w'
                 /\ threads w' = threads w
                 /\ _thread (self w') = _thread (self w)
                 /\ one_scheduler w').
Proof.
  intros Hone minutes. split; [|split].
  - set (w0 := with_config (fun c => ("cache_length", cfg_int minutes) :: c)
                 (with_self (set_cache_length minutes) w)).
    destruct (retire_ok w0) as [fuel0 Hret]; [exact Hone|].
    exists fuel0. intros fuel.
    destruct (Hret fuel) as (wj & Ej & Hno & Hlen & Hcl).
    assert (E1 : cache_length_setter_until_joined (fuel0 + fuel) value w
                 = Ok tt wj).
    { unfold cache_length_setter_until_joined. fold minutes.
      unfold bind, modify, writeConfig. simpl. fold w0. exact Ej. }
    assert (E2 : cache_length_setter (fuel0 + fuel) value w
                 = spawn bound_fetchIndexItems minutes wj).
    { unfold cache_length_setter. fold minutes.
      unfold bind at 1 2 3, modify, writeConfig. simpl. fold w0.
      rewrite Ej. unfold bind at 1, get. now rewrite Hcl. }
    eexists wj, _. split; [exact E1|]. split; [exact Hno|].
    split; [apply spawn_ok|]. split; [rewrite E2; apply spawn_ok|].
    split; [reflexivity|]. split; [reflexivity|].
    now apply one_scheduler_spawned.
  - eexists. split; [reflexivity|]. repeat split. exact Hone.
  - eexists. split; [reflexivity|]. repeat split. exact Hone.
Qed.

(** A fresh plugin, whose only thread is the one [__init__] started. *)
Lemma reconfiguration_witness :
  exists w',
    api_key_setter "secret" (Demo.fresh (Demo.always Failed)) = Ok tt w'
    /\ threads w' = threads (Demo.fresh (Demo.always Failed))
    /\ _thread (self w') = O
    /\ one_scheduler w'.
Proof.
  refine (proj2 (proj2 (reconfiguration_keeps_one_scheduler
                          (Demo.fresh (Demo.always Failed)) 0
                          "https://readeck.example" "secret" _))).
  intros [|j] t Hj Ha; [reflexivity|discriminate].
Defined.

(** * Further properties of the plugin *)

(** ** What a refresh cycle does to the world *)

Lemma logged_nil (w : World) : logged [] w = w.
Proof. destruct w; unfold logged; simpl. now rewrite app_nil_r. Qed.

Lemma with_log_logged (e : LogEntry) (w : World) : with_log e w = logged [e] w.
Proof. reflexivity. Qed.

Lemma for_link_in_created (fuel : nat) (w : World) :
  for_link_in fuel gen_created w
  = for_link_in fuel (gen_suspended (start_locals w)) w.
Proof.
  destruct fuel as [|fuel]; [reflexivity|].
  now rewrite !for_link_in_S, next_created.
Qed.

(** The loop sends list-page requests at consecutive offsets, puts the
    links it is given on the accumulator, logs at most the warning that
    ends it, and changes nothing else. *)
Lemma for_link_in_effect (fuel : nat) :
  forall (l : Locals) (w : World),
    match for_link_in fuel (gen_suspended l) w with
    | Ok _ w' =>
        exists n links ws,
          w' = logged ws
                 (fetched (page_requests (_instance_url (self w)) (hdrs l)
                                         (offset l) n) links w)
          /\ at_most_a_warning ws
          /\ (offset l <= total l -> (1 <= n)%nat)
    | Raise _ w' =>
        exists n links,
          w' = fetched (page_requests (_instance_url (self w)) (hdrs l)
                                      (offset l) (S n)) links w
    | OutOfFuel => True
    end.
Proof.
  induction fuel as [|fuel IH]; intros l w; [exact I|].
  rewrite for_link_in_S. simpl _get_links_next.
  destruct (resume_cases l w)
    as [[-> Hlt]|[[e [-> ?]]|[[r [-> ?]]|(r & p & l' & -> & _ & _ & _ & _ & Ho & Hh & _)]]].
  - exists O, [], []. split; [now rewrite logged_nil, fetched_nil|].
    split; [now left|lia].
  - exists O, []. apply with_net_alone.
  - exists 1%nat, [], [warning_page (status_code r)
                         (req_url (page_request (_instance_url (self w))
                                                (hdrs l) (offset l)))].
    split; [now rewrite with_log_logged, with_net_alone|].
    split; [right; eauto|lia].
  - rewrite absorb_page.
    specialize (IH l' (fetched [page_request (_instance_url (self w)) (hdrs l)
                                             (offset l)] p w)).
    destruct (for_link_in fuel (gen_suspended l') _) as [[] w'|e w'|];
      [| |exact I].
    + destruct IH as (n & links & ws & -> & Hws & _).
      exists (S n), (p ++ links), ws.
      rewrite fetched_fetched. simpl. rewrite Hh, Ho.
      split; [reflexivity|]. split; [exact Hws|lia].
    + destruct IH as (n & links & ->).
      exists (S n), (p ++ links).
      rewrite fetched_fetched. simpl. now rewrite Hh, Ho.
Qed.

Lemma fetchIndexItems_effect (fuel : nat) (w : World) :
  match fetchIndexItems fuel w with
  | Ok _ w' =>
      exists n links ws,
        w' = install
               (logged ws
                  (fetched (page_requests (_instance_url (self w))
                                          (get_headers (_api_key (self w)))
                                          0 (S n)) links w))
        /\ at_most_a_warning ws
  | Raise _ w' =>
      exists n links,
        w' = fetched (page_requests (_instance_url (self w))
                                    (get_headers (_api_key (self w)))
                                    0 (S n)) links w
  | OutOfFuel => True
  end.
Proof.
  rewrite fetchIndexItems_unfold, for_link_in_created.
  pose proof (for_link_in_effect fuel (start_locals w) w) as H.
  destruct (for_link_in fuel (gen_suspended (start_locals w)) w)
    as [[] w'|e w'|]; [| |exact I].
  - destruct H as (n & links & ws & -> & Hws & Hn).
    destruct n as [|n]; [simpl in Hn; lia|].
    now exists n, links, ws.
  - exact H.
Qed.


(** X2. Whatever the server answers, the requests of a refresh cycle
    are list-page requests for the offsets 0, 100, 200, ... without a
    gap, at least one of them, each built from the instance URL and the
    API key the plugin had when the cycle began. *)
Theorem refresh_requests_are_consecutive_pages (fuel : nat) (w : World) :
  fetchIndexItems fuel w = OutOfFuel
  \/ exists n,
       sent w (fetchIndexItems fuel w)
       = page_requests (_instance_url (self w))
                       (get_headers (_api_key (self w))) 0 (S n).
Proof.
  pose proof (fetchIndexItems_effect fuel w) as H.
  destruct (fetchIndexItems fuel w) as [[] w'|e w'|]; [right|right|now left].
  - destruct H as (n & links & ws & -> & _). exists n.
    unfold sent. simpl. apply drop_app_length.
  - destruct H as (n & links & ->). exists n.
    unfold sent. simpl. apply drop_app_length.
Qed.

(** ** A run in which every page succeeds *)

(** X3. When the first page reports the total [T] and every page asked
    for is answered successfully, the cycle sends exactly
    [max T 0 / 100 + 1] requests and installs the records of all their
    pages in order. The loop test is [offset <= total]: a total that is a
    multiple of the limit costs one request more than there are pages
    of bookmarks, and a total of zero or less still costs one. *)
Theorem successful_run_request_count
    (w : World) (r0 : Response) (rest : list Response) (T : Z) (fuel : nat) :
  serves w (start_locals w) (r0 :: rest) ->
  total_count (headers r0) = Some T ->
  length rest = Z.to_nat (Z.max T 0 / limit) ->
  (length rest + 1 < fuel)%nat ->
  exists w',
    fetchIndexItems fuel w = Ok tt w'
    /\ sent w (fetchIndexItems fuel w)
       = page_requests (_instance_url (self w))
                       (get_headers (_api_key (self w))) 0 (S (length rest))
    /\ index w' = _index_items (self w)
                  ++ map (index_item (self w)) (bodies (r0 :: rest))
    /\ log w' = log w ++ [info_indexed (length (index w'))].
Proof.
  intros Hs HT Hlen Hfuel.
  assert (Hk : Z.of_nat (length rest) = Z.max T 0 / limit).
  { rewrite Hlen, Z2Nat.id; [reflexivity|].
    apply Z.div_pos; unfold limit; lia. }
  assert (Hdone : T < limit * Z.of_nat (length (r0 :: rest))).
  { simpl length. rewrite Nat2Z.inj_succ, Hk. unfold limit.
    pose proof (Z.mul_succ_div_gt (Z.max T 0) 100 ltac:(lia)). lia. }
  assert (E : for_link_in (length (r0 :: rest) + 1) gen_created w
              = Ok tt (fetched (page_requests (_instance_url (self w))
                                  (get_headers (_api_key (self w))) 0
                                  (length (r0 :: rest)))
                               (bodies (r0 :: rest)) w)).
  { destruct (Z.lt_ge_cases T 0) as [Hneg|Hpos].
    - (* a negative total: one page *)
      assert (rest = []) as ->.
      { apply length_zero_iff_nil. rewrite Hlen.
        replace (Z.max T 0) with 0 by lia. reflexivity. }
      destruct (Hs O r0 eq_refl) as (Hr0 & Hok & [p Hj]).
      simpl in Hr0. rewrite Nat.add_0_r in Hr0.
      change (length [r0] + 1)%nat with 2%nat.
      rewrite for_link_in_S, next_created.
      rewrite (resume_capture _ w r0 p T); try assumption; try reflexivity;
        [|simpl; lia].
      rewrite absorb_page, for_link_in_S. simpl _get_links_next.
      rewrite resume_exhausted by (simpl; unfold limit; lia).
      unfold bodies. simpl. now rewrite Hj, app_nil_r.
    - rewrite run_pages; [|assumption|].
      + rewrite for_link_in_S. simpl _get_links_next.
        rewrite resume_exhausted; [reflexivity|].
        simpl total. simpl offset. rewrite HT. simpl default. exact Hdone.
      + exists T. split; [assumption|]. rewrite Hk. unfold limit.
        pose proof (Z.mul_div_le (Z.max T 0) 100 ltac:(lia)). lia. }
  assert (E' : for_link_in fuel gen_created w
               = for_link_in (length (r0 :: rest) + 1) gen_created w).
  { apply for_link_in_mono; [rewrite E; discriminate|simpl length; lia]. }
  eexists. rewrite fetchIndexItems_unfold, E', E.
  split; [reflexivity|]. split; [unfold sent; simpl; apply drop_app_length|].
  split; reflexivity.
Qed.

(** A server with exactly 200 bookmarks: three requests. *)
Lemma successful_run_witness :
  exists w',
    fetchIndexItems 4 (Demo.fresh (Demo.always (Responded (Demo.page "200" "x"))))
    = Ok tt w'
    /\ sent (Demo.fresh (Demo.always (Responded (Demo.page "200" "x"))))
            (fetchIndexItems 4
               (Demo.fresh (Demo.always (Responded (Demo.page "200" "x")))))
       = page_requests "http://localhost:8000" (get_headers EmptyString) 0 3
    /\ length (index w') = 3%nat.
Proof.
  destruct (successful_run_request_count
              (Demo.fresh (Demo.always (Responded (Demo.page "200" "x"))))
              (Demo.page "200" "x") [Demo.page "200" "x"; Demo.page "200" "x"]
              200 4) as (w' & E & Hsent & Hidx & _).
  - intros j r Hj. destruct j as [|[|[|j]]]; simpl in Hj;
      try discriminate; injection Hj as <-;
      (split; [reflexivity|split; [reflexivity|eexists; reflexivity]]).
  - reflexivity.
  - reflexivity.
  - simpl. lia.
  - exists w'. split; [exact E|]. split; [exact Hsent|].
    rewrite Hidx. reflexivity.
Defined.

(** ** Cycles that raise, and the cycle after *)

(** X4. When the request after the pages [rs] fails in transport, the
    cycle raises with the index untouched and the records of [rs] left
    on the accumulator, which nothing empties: a later cycle that
    returns installs them again in front of what it fetches itself. *)
Theorem raising_cycle_leaves_records_behind
    (w : World) (rs : list Response) (fuel fuel2 : nat) :
  serves w (start_locals w) rs ->
  reaches_page rs ->
  next_answer w rs = Failed ->
  (length rs < fuel)%nat ->
  exists w',
    fetchIndexItems fuel w = Raise RequestException w'
    /\ index w' = index w
    /\ _index_items (self w')
       = _index_items (self w) ++ map (index_item (self w)) (bodies rs)
    /\ match fetchIndexItems fuel2 w' with
       | Ok _ w'' =>
           exists links,
             index w'' = _index_items (self w)
                         ++ map (index_item (self w)) (bodies rs)
                         ++ map (index_item (self w)) links
       | _ => True
       end.
Proof.
  intros Hs Hreach Hfail Hfuel.
  pose proof (for_link_in_until_error w rs Hs Hreach) as Hloop.
  cbv zeta in Hloop. rewrite Hfail in Hloop.
  assert (E : for_link_in fuel gen_created w
              = for_link_in (S (length rs)) gen_created w).
  { apply for_link_in_mono; [rewrite Hloop; discriminate|lia]. }
  eexists. rewrite fetchIndexItems_unfold, E, Hloop.
  split; [reflexivity|]. split; [reflexivity|]. split; [reflexivity|].
  match goal with |- match fetchIndexItems fuel2 ?w1 with _ => _ end =>
    pose proof (fetchIndexItems_effect fuel2 w1) as H;
    destruct (fetchIndexItems fuel2 w1) as [[] w''|e w''|]; try exact I
  end.
  destruct H as (n & links & ws & -> & _).
  exists links. simpl. now rewrite <- app_assoc.
Qed.

(** The second request of the first cycle fails; the next cycle gets a
    404 at once and still installs the one record left behind. *)
Lemma raising_cycle_witness :
  exists w' w'',
    fetchIndexItems 2
      (Demo.fresh (Demo.scripted [Responded (Demo.page "250" "x"); Failed;
                                  Responded Demo.not_found]))
    = Raise RequestException w'
    /\ fetchIndexItems 1 w' = Ok tt w''
    /\ map string_ (index w'') = ["http://x,,a,b"].
Proof.
  destruct (raising_cycle_leaves_records_behind
              (Demo.fresh (Demo.scripted [Responded (Demo.page "250" "x");
                                          Failed; Responded Demo.not_found]))
              [Demo.page "250" "x"] 2 1) as (w' & E & _ & _ & _).
  - intros j r Hj. destruct j as [|j]; simpl in Hj; try discriminate.
    injection Hj as <-.
    split; [reflexivity|split; [reflexivity|eexists; reflexivity]].
  - exists 250. split; [reflexivity|]. unfold limit. simpl. lia.
  - reflexivity.
  - simpl. lia.
  - exists w'. eexists. split; [exact E|].
    injection E as <-. split; reflexivity.
Defined.

(** ** Credentials and the next cycle *)

Lemma Forall_page_requests (P : Request -> Prop) (u : string) (h : Headers)
    (n : nat) :
  (forall off, P (page_request u h off)) ->
  forall off, Forall P (page_requests u h off n).
Proof.
  intros HP. induction n as [|n IH]; intros off; simpl; constructor; auto.
Qed.

Lemma prefix_append (u s : string) : String.prefix u (u +:+ s) = true.
Proof.
  induction u as [|c u IH]; simpl; [now destruct s|].
  destruct (Ascii.ascii_dec c c); [exact IH|congruence].
Qed.

(** X5. New credentials need no restart: after the API key and the
    instance URL are set, the requests of the next refresh cycle go to
    the new URL and carry the new key as bearer token. *)
Theorem credentials_take_effect_at_next_cycle
    (w : World) (url key : string) (fuel : nat) :
  let r := (api_key_setter key ;;; instance_url_setter url ;;;
            fetchIndexItems fuel) w in
  r = OutOfFuel
  \/ exists n,
       sent w r = page_requests url (get_headers key) 0 (S n)
       /\ Forall (fun q => headers_get "Authorization" (req_headers q)
                           = Some ("Bearer " +:+ key)
                           /\ String.prefix url (req_url q) = true)
                 (sent w r).
Proof.
  cbv zeta. unfold bind at 1 2, api_key_setter, instance_url_setter.
  unfold bind, modify, writeConfig. simpl.
  assert (HP : forall off,
             headers_get "Authorization"
                         (req_headers (page_request url (get_headers key) off))
             = Some ("Bearer " +:+ key)
             /\ String.prefix url
                              (req_url (page_request url (get_headers key) off))
                = true).
  { intros off. split; [reflexivity|]. apply prefix_append. }
  match goal with |- fetchIndexItems fuel ?w1 = _ \/ _ =>
    pose proof (fetchIndexItems_effect fuel w1) as H;
    destruct (fetchIndexItems fuel w1) as [[] w'|e w'|]; [right|right|now left]
  end.
  - destruct H as (n & links & ws & -> & _). exists n.
    unfold sent. cbn [world_of net fetched logged install with_self with_log
                      with_index].
    rewrite drop_app_length. split; [reflexivity|].
    now apply Forall_page_requests.
  - destruct H as (n & links & ->). exists n.
    unfold sent. cbn [world_of net fetched].
    rewrite drop_app_length. split; [reflexivity|].
    now apply Forall_page_requests.
Qed.

(** ** Outcome of the archive action *)

(** X6. The archive action refreshes exactly when its [PATCH] is
    answered with a success. When the answer is an error status the only
    request is the [PATCH], a warning is logged and the index stays as it
    is; when it is a success one refresh cycle follows, whose list-page
    requests come after the [PATCH] and whose index is installed and
    logged once. When the action raises, the index is unchanged. *)
Theorem archive_action_outcome (fuel : nat) (bookmark_id : string) (w : World) :
  let patch := patch_request w bookmark_id in
  let debug := debug_about_to PATCH (req_url patch) in
  match _archive_bookmark fuel bookmark_id w with
  | Ok _ w' =>
      (exists r,
          remote w (length (net w)) patch = Responded r /\ ok r = false
          /\ net w' = net w ++ [patch]
          /\ index w' = index w
          /\ _index_items (self w') = _index_items (self w)
          /\ log w' = log w ++ [debug; warning_response (status_code r)])
      \/ (exists r n links ws,
             remote w (length (net w)) patch = Responded r /\ ok r = true
             /\ net w' = net w ++ patch
                         :: page_requests (_instance_url (self w))
                              (get_headers (_api_key (self w))) 0 (S n)
             /\ index w' = _index_items (self w)
                           ++ map (index_item (self w)) links
             /\ log w' = log w ++ debug :: ws
                         ++ [info_indexed (length (index w'))]
             /\ at_most_a_warning ws)
  | Raise _ w' =>
      index w' = index w /\ log w' = log w ++ [debug]
      /\ exists n,
           net w' = net w ++ patch
                    :: page_requests (_instance_url (self w))
                         (get_headers (_api_key (self w))) 0 n
  | OutOfFuel => True
  end.
Proof.
  cbv zeta. rewrite _archive_bookmark_unfold. cbv zeta.
  destruct (remote w (length (net w)) (patch_request w bookmark_id))
    as [r|] eqn:Hr.
  - destruct (ok r) eqn:Hok.
    + match goal with |- match fetchIndexItems fuel ?w1 with _ => _ end =>
        pose proof (fetchIndexItems_effect fuel w1) as H;
        destruct (fetchIndexItems fuel w1) as [[] w'|e w'|]; [| |exact I]
      end.
      * destruct H as (n & links & ws & -> & Hws). right.
        exists r, n, links, ws. simpl.
        rewrite <- !app_assoc. simpl. now repeat split.
      * destruct H as (n & links & ->). simpl.
        split; [reflexivity|]. split; [reflexivity|].
        exists (S n). now rewrite <- app_assoc.
    + left. exists r. simpl. rewrite <- app_assoc. now repeat split.
  - simpl. split; [reflexivity|]. split; [reflexivity|]. now exists O.
Qed.

(** ** The cycle and the pager *)

Lemma resume_with_items (l : Locals) (v : list IndexItem) (w : World) :
  _get_links_resume l (with_self (set_index_items v) w)
  = map_world (with_self (set_index_items v)) (_get_links_resume l w).
Proof.
  unfold _get_links_resume, bind, get, send, modify, ret, raise.
  destruct (offset l <=? total l); [|reflexivity].
  change (remote (with_self (set_index_items v) w)) with (remote w).
  change (net (with_self (set_index_items v) w)) with (net w).
  change (_instance_url (self (with_self (set_index_items v) w)))
    with (_instance_url (self w)).
  destruct (remote w (length (net w)) _) as [r|]; [|reflexivity].
  destruct (ok r); [|reflexivity].
  destruct (falsy (response_headers l));
    [destruct (total_count (headers r))|]; simpl;
    try destruct (json r); reflexivity.
Qed.

Lemma next_with_items (g : Generator) (v : list IndexItem) (w : World) :
  _get_links_next g (with_self (set_index_items v) w)
  = map_world (with_self (set_index_items v)) (_get_links_next g w).
Proof.
  destruct g as [|l|]; [|apply resume_with_items|reflexivity].
  rewrite !next_created. apply resume_with_items.
Qed.

Lemma _fetch_results_with_items (fuel : nat) :
  forall (g : Generator) (v : list IndexItem) (w : World),
    _fetch_results fuel g (with_self (set_index_items v) w)
    = map_world (with_self (set_index_items v)) (_fetch_results fuel g w).
Proof.
  induction fuel as [|fuel IH]; intros g v w; [reflexivity|].
  rewrite !_fetch_results_S, next_with_items.
  destruct (_get_links_next g w) as [[p g'|] w'|e w'|]; simpl; try reflexivity.
  rewrite IH. now destruct (_fetch_results fuel g' w').
Qed.

Lemma next_self (g : Generator) (w : World) :
  match _get_links_next g w with
  | Ok _ w' | Raise _ w' => self w' = self w
  | OutOfFuel => True
  end.
Proof.
  pose proof (next_after g w (fun _ => True) (fun _ _ _ => I)) as H.
  assert (forall l, match _get_links_resume l w with
                    | Ok _ w' | Raise _ w' => self w' = self w
                    | OutOfFuel => True
                    end) as Hres.
  { intros l.
    destruct (resume_cases l w)
      as [[-> ?]|[[e [-> ?]]|[[r [-> ?]]|(r & p & l' & -> & _)]]];
      reflexivity. }
  destruct g as [|l|]; [rewrite next_created|simpl|reflexivity]; apply Hres.
Qed.

Lemma set_index_items_twice (a b : list IndexItem) (w : World) :
  with_self (set_index_items b) (with_self (set_index_items a) w)
  = with_self (set_index_items b) w.
Proof. reflexivity. Qed.

(** The loop of the cycle does what the collecting consumer does, and
    puts the records of the links on the accumulator. *)
Lemma for_link_in_collects (fuel : nat) :
  forall (g : Generator) (w w1 : World) (links : list RawRecord),
    _fetch_results fuel g w = Ok links w1 ->
    for_link_in fuel g w
    = Ok tt (with_self
               (set_index_items
                  (_index_items (self w) ++ map (index_item (self w)) links))
               w1).
Proof.
  induction fuel as [|fuel IH]; intros g w w1 links Hc; [discriminate|].
  rewrite _fetch_results_S in Hc. rewrite for_link_in_S.
  pose proof (next_self g w) as Hself.
  destruct (_get_links_next g w) as [[p g'|] wa|e wa|]; try discriminate.
  - destruct (_fetch_results fuel g' wa) as [rest wb|e wb|] eqn:Er;
      try discriminate.
    injection Hc as <- <-.
    replace (with_self (fun s => fold_left index_link p s) wa)
      with (with_self
              (set_index_items
                 (_index_items (self w) ++ map (index_item (self w)) p)) wa)
      by (unfold with_self; now rewrite fold_index_link, Hself).
    rewrite (IH g' _ (with_self
                        (set_index_items
                           (_index_items (self w)
                            ++ map (index_item (self w)) p)) wb) rest)
      by (rewrite _fetch_results_with_items, Er; reflexivity).
    rewrite set_index_items_twice.
    cbn [self with_self set_index_items _index_items].
    rewrite Hself, map_app, app_assoc.
    destruct (self w); reflexivity.
  - injection Hc as <- <-. simpl. rewrite app_nil_r, <- Hself.
    destruct wa as [[] ? ? ? ? ? ? ?]; reflexivity.
Qed.

(** X7. The records a refresh cycle installs are the transformed links
    of the pager, in the pager's order: when collecting from the
    generator gives [links], the cycle started in the same world sends
    the same requests and logs the same warning, and installs the
    accumulator followed by one record per link. *)
Theorem cycle_installs_what_pager_yields
    (fuel : nat) (w w1 : World) (links : list RawRecord) :
  _fetch_results fuel gen_created w = Ok links w1 ->
  exists w',
    fetchIndexItems fuel w = Ok tt w'
    /\ index w' = _index_items (self w) ++ map (index_item (self w)) links
    /\ map string_ (index w')
       = map string_ (_index_items (self w)) ++ map _create_filters links
    /\ net w' = net w1
    /\ log w' = log w1 ++ [info_indexed (length (index w'))].
Proof.
  intros Hc. eexists.
  rewrite fetchIndexItems_unfold, (for_link_in_collects fuel _ _ _ _ Hc).
  split; [reflexivity|]. simpl.
  rewrite map_app, map_map. now repeat split.
Qed.

(** One page of one bookmark. *)
Lemma cycle_installs_witness :
  exists w',
    fetchIndexItems 2 (Demo.fresh (Demo.always (Responded (Demo.page "1" "x"))))
    = Ok tt w'
    /\ map string_ (index w') = ["http://x,,a,b"].
Proof.
  destruct (cycle_installs_what_pager_yields 2
              (Demo.fresh (Demo.always (Responded (Demo.page "1" "x"))))
              _ _ eq_refl) as (w' & E & _ & Hs & _).
  exists w'. split; [exact E|exact Hs].
Defined.

(** ** The scheduler thread at the edges *)

(** X8. An exception in the callback ends the scheduler thread for
    good: the step that ran the callback is its last, every later step
    does nothing, and the thread is no longer alive. *)
Theorem scheduler_ends_when_callback_raises
    (fuel n tid : nat) (w w0 : World) (t : LinkFetcherThread) (e : Exn) :
  threads w !! tid = Some t ->
  pc t = pc_run \/ (pc t = pc_check /\ __stop_event t = false) ->
  call fuel (__callback t) w = Raise e w0 ->
  thread_run fuel (S n) tid w
  = Ok (did_die e :: repeat did_nothing n) (move tid pc_exited w0)
  /\ thread_is_alive tid (move tid pc_exited w0)
     = Ok false (move tid pc_exited w0).
Proof.
  intros Ht Hpc Hcall.
  pose proof (call_same_threads fuel (__callback t) w) as Hsame.
  rewrite Hcall in Hsame. destruct Hsame as (Hth & _).
  assert (Ht0 : threads (move tid pc_exited w0) !! tid
                = Some (at_pc pc_exited t))
    by (apply move_lookup; now rewrite Hth).
  split.
  - rewrite thread_run_S, (thread_step_callback fuel tid w t Ht Hpc).
    unfold run_callback. rewrite Hcall.
    now rewrite (thread_run_ended fuel n tid _ _ Ht0 eq_refl).
  - unfold thread_is_alive, get. now rewrite Ht0.
Qed.

(** The thread [__init__] started, with the server unreachable. *)
Lemma scheduler_ends_witness :
  option_map fst
    (match thread_run 1 3 0 (Demo.fresh (Demo.always Failed)) with
     | Ok ds w => Some (ds, w)
     | _ => None
     end)
  = Some [did_die RequestException; did_nothing; did_nothing].
Proof.
  rewrite (proj1 (scheduler_ends_when_callback_raises 1 2 0
                    (Demo.fresh (Demo.always Failed)) _ _ RequestException
                    eq_refl (or_introl eq_refl) eq_refl)).
  reflexivity.
Defined.

(** X9. A stop signal that arrives before the thread's first callback
    does not prevent it: the thread still runs one full callback, then
    makes its wait, then returns. *)
Theorem stop_before_first_callback_still_refreshes
    (fuel n tid : nat) (w w0 : World) (t : LinkFetcherThread) :
  threads w !! tid = Some t ->
  pc t = pc_run ->
  __stop_event t = true ->
  call fuel (__callback t) w = Ok tt w0 ->
  thread_run fuel (3 + n) tid w
  = Ok (did_callback :: did_wait (__cache_length t) :: did_return
        :: repeat did_nothing n)
       (move tid pc_exited (move tid pc_check (move tid pc_wait w0))).
Proof.
  intros Ht Hpc Hst Hcall.
  pose proof (call_same_threads fuel (__callback t) w) as Hsame.
  rewrite Hcall in Hsame. destruct Hsame as (Hth & _).
  assert (Ht1 : threads (move tid pc_wait w0) !! tid = Some (at_pc pc_wait t))
    by (apply move_lookup; now rewrite Hth).
  pose proof (move_lookup tid pc_check _ _ Ht1) as Ht2.
  pose proof (move_lookup tid pc_exited _ _ Ht2) as Ht3.
  change (3 + n)%nat with (S (S (S n))).
  rewrite thread_run_S,
    (thread_step_callback fuel tid w t Ht (or_introl Hpc)).
  unfold run_callback. rewrite Hcall.
  rewrite thread_run_S, (thread_step_wait fuel tid _ _ Ht1 eq_refl).
  rewrite thread_run_S, (thread_step_stopped fuel tid _ _ Ht2 eq_refl Hst).
  now rewrite (thread_run_ended fuel n tid _ _ Ht3 eq_refl).
Qed.

(** The fresh plugin's thread, stopped at once; the server answers 404. *)
Lemma stop_before_first_callback_witness :
  option_map (fun r => (fst r, length (net (snd r))))
    (match thread_run 1 3 0
             (with_threads (alter set_stop_event O)
                (Demo.fresh (Demo.always (Responded Demo.not_found)))) with
     | Ok ds w => Some (ds, w)
     | _ => None
     end)
  = Some ([did_callback; did_wait 900; did_return], 1%nat).
Proof.
  assert (Ht : threads
                 (with_threads (alter set_stop_event O)
                    (Demo.fresh (Demo.always (Responded Demo.not_found))))
               !! O
               = Some {| __stop_event := true;
                         __callback := bound_fetchIndexItems;
                         __cache_length := 900; pc := pc_run |})
    by reflexivity.
  pose proof (stop_before_first_callback_still_refreshes 1 0 0 _ _ _
                Ht eq_refl eq_refl eq_refl) as E.
  change (3 + 0)%nat with 3%nat in E. rewrite E. reflexivity.
Defined.

(** X10. That at most the plugin's current thread is alive is kept by
    every step of every thread and by every closure the plugin hands
    out: a step moves only its own thread, never back to life, and a
    closure does not touch the thread table. *)
Theorem one_scheduler_is_kept (w : World) :
  one_scheduler w ->
  (forall fuel tid,
      match thread_step fuel tid w with
      | Ok _ w' | Raise _ w' => one_scheduler w'
      | OutOfFuel => True
      end)
  /\ (forall fuel c,
         match call fuel c w with
         | Ok _ w' | Raise _ w' => one_scheduler w'
         | OutOfFuel => True
         end).
Proof.
  intros Hone.
  assert (Hmove : forall tid t v w0,
             threads w !! tid = Some t -> is_alive t = true ->
             same_threads w w0 ->
             one_scheduler (move tid v w0)).
  { intros tid t v w0 Ht Ha (Hth & Hid & _) j tj Hj Haj.
    destruct (move_same tid v w0) as (Hs & _). rewrite Hs, Hid.
    destruct (decide (j = tid)) as [->|Hne].
    - exact (Hone tid t Ht Ha).
    - rewrite move_lookup_ne in Hj by assumption. rewrite Hth in Hj.
      exact (Hone j tj Hj Haj). }
  assert (Hsame : forall w0, same_threads w w0 -> one_scheduler w0).
  { intros w0 (Hth & Hid & _) j tj Hj Haj. rewrite Hid. rewrite Hth in Hj.
    exact (Hone j tj Hj Haj). }
  split.
  - intros fuel tid. unfold thread_step.
    destruct (threads w !! tid) as [t|] eqn:Ht; [|exact Hone].
    assert (Hcb : is_alive t = true ->
                  match run_callback fuel tid t w with
                  | Ok _ w' | Raise _ w' => one_scheduler w'
                  | OutOfFuel => True
                  end).
    { intros Ha.
      destruct (run_callback_cases fuel tid t w)
        as [->|(w0 & Hs & [->|[e ->]])]; [exact I| |];
        now apply (Hmove tid t _ w0 Ht Ha). }
    destruct (pc t) eqn:Hp; try exact Hone.
    + apply Hcb. unfold is_alive. now rewrite Hp.
    + apply (Hmove tid t pc_check w Ht); [unfold is_alive; now rewrite Hp|].
      now repeat split.
    + destruct (__stop_event t).
      * apply (Hmove tid t pc_exited w Ht); [unfold is_alive; now rewrite Hp|].
        now repeat split.
      * apply Hcb. unfold is_alive. now rewrite Hp.
  - intros fuel c. pose proof (call_same_threads fuel c w) as H.
    destruct (call fuel c w) as [[] w'|e w'|]; try exact I; now apply Hsame.
Qed.

(** The fresh plugin. *)
Lemma one_scheduler_is_kept_witness :
  match thread_step 1 0 (Demo.fresh (Demo.always Failed)) with
  | Ok _ w' | Raise _ w' => one_scheduler w'
  | OutOfFuel => True
  end.
Proof.
  refine (proj1 (one_scheduler_is_kept (Demo.fresh (Demo.always Failed)) _)
                1%nat O).
  intros [|j] t Hj Ha; [reflexivity|discriminate].
Defined.

(** ** Life cycle and configuration *)

Lemma call_config (fuel : nat) (c : Callable) (w : World) :
  match call fuel c w with
  | Ok _ w' | Raise _ w' => config w' = config w
  | OutOfFuel => True
  end.
Proof.
  assert (forall w1, match fetchIndexItems fuel w1 with
                     | Ok _ w' | Raise _ w' => config w' = config w1
                     | OutOfFuel => True
                     end) as Hf.
  { intros w1. pose proof (fetchIndexItems_effect fuel w1) as H.
    destruct (fetchIndexItems fuel w1) as [[] w'|e w'|]; [| |exact I].
    - now destruct H as (n & links & ws & -> & _).
    - now destruct H as (n & links & ->). }
  destruct c as [u|u|u|]; simpl; try reflexivity; [|apply Hf].
  rewrite _archive_bookmark_unfold. cbv zeta.
  destruct (remote w (length (net w)) _) as [r|]; [|reflexivity].
  destruct (ok r); [|reflexivity].
  apply (Hf (with_net (patch_request w u)
               (with_log (debug_about_to PATCH (req_url (patch_request w u)))
                         w))).
Qed.

Lemma thread_step_config (fuel tid : nat) (w : World) :
  match thread_step fuel tid w with
  | Ok _ w' | Raise _ w' => config w' = config w
  | OutOfFuel => True
  end.
Proof.
  unfold thread_step. destruct (threads w !! tid) as [t|]; [|reflexivity].
  assert (match run_callback fuel tid t w with
          | Ok _ w' | Raise _ w' => config w' = config w
          | OutOfFuel => True
          end) as Hcb.
  { unfold run_callback. pose proof (call_config fuel (__callback t) w) as H.
    destruct (call fuel (__callback t) w); try exact I; exact H. }
  destruct (pc t); try reflexivity; try exact Hcb.
  destruct (__stop_event t); [reflexivity|exact Hcb].
Qed.

Lemma join_config (fuel tid : nat) :
  forall w, match join fuel tid w with
            | Ok _ w' | Raise _ w' => config w' = config w
            | OutOfFuel => True
            end.
Proof.
  induction fuel as [|fuel IH]; intros w; [exact I|].
  rewrite join_S. destruct (threads w !! tid) as [t|]; [|reflexivity].
  assert (match match thread_step fuel tid w with
                | Ok _ w1 => join fuel tid w1
                | Raise e w1 => Raise e w1
                | OutOfFuel => OutOfFuel
                end with
          | Ok _ w' | Raise _ w' => config w' = config w
          | OutOfFuel => True
          end) as Hstep.
  { pose proof (thread_step_config fuel tid w) as H.
    destruct (thread_step fuel tid w) as [d w1|e w1|]; try exact I; [|exact H].
    specialize (IH w1).
    destruct (join fuel tid w1); try exact I; congruence. }
  destruct (pc t); try reflexivity; exact Hstep.
Qed.

Lemma retire_config (fuel : nat) (w : World) :
  match retire fuel w with
  | Ok _ w' | Raise _ w' => config w' = config w
  | OutOfFuel => True
  end.
Proof.
  unfold retire, thread_is_alive. unfold bind, get, stop, modify, ret.
  cbv beta iota.
  destruct (match threads w !! _thread (self w) with
            | Some t => is_alive t
            | None => false
            end); cbv beta iota; [|reflexivity].
  apply (join_config fuel (_thread (self w))
           (with_threads (alter set_stop_event (_thread (self w))) w)).
Qed.

(** X11. [__del__] on a plugin whose thread was started returns with no
    scheduler left alive. *)
Theorem del_leaves_no_scheduler (w : World) (t : LinkFetcherThread) :
  one_scheduler w ->
  threads w !! _thread (self w) = Some t ->
  pc t <> pc_created ->
  exists fuel0, forall fuel, exists w',
    Plugin__del__ (fuel0 + fuel) w = Ok tt w'
    /\ no_scheduler w'
    /\ length (threads w') = length (threads w).
Proof.
  intros Hone Ht Hc.
  set (ws := with_threads (alter set_stop_event (_thread (self w))) w).
  assert (Hts : threads ws !! _thread (self w) = Some (set_stop_event t)).
  { unfold ws; simpl. now rewrite list_lookup_alter_eq, Ht. }
  destruct (join_stopped (_thread (self w)) ws _ Hts eq_refl Hc) as [fuel0 Hj].
  exists fuel0. intros fuel.
  destruct (Hj fuel) as (w' & E & (Hoth & Hlen & _) & t' & Ht' & Hp').
  exists w'. split; [exact E|]. split.
  - intros j tj Hjt.
    destruct (decide (j = _thread (self w))) as [->|Hne].
    + rewrite Ht' in Hjt. injection Hjt as <-.
      unfold is_alive. now rewrite Hp'.
    + rewrite (Hoth j Hne) in Hjt. unfold ws in Hjt; simpl in Hjt.
      rewrite list_lookup_alter_ne in Hjt by congruence.
      destruct (is_alive tj) eqn:Hal; [|reflexivity].
      now specialize (Hone j tj Hjt Hal).
  - rewrite Hlen. unfold ws; simpl. apply length_alter.
Qed.

(** The fresh plugin. *)
Lemma del_leaves_no_scheduler_witness :
  exists fuel0, forall fuel, exists w',
    Plugin__del__ (fuel0 + fuel) (Demo.fresh (Demo.always Failed)) = Ok tt w'
    /\ no_scheduler w'
    /\ length (threads w') = 1%nat.
Proof.
  refine (del_leaves_no_scheduler (Demo.fresh (Demo.always Failed)) _ _
            eq_refl _).
  - intros [|j] t Hj Ha; [reflexivity|discriminate].
  - discriminate.
Defined.

(** X12. The interval setter never lets the interval drop below one
    minute: the stored value, the value written to the configuration and
    the interval of the thread it starts are those of [max 1 value], so
    the new thread waits at least 60 seconds; and a plugin constructed
    from the configuration it wrote starts with that same interval. *)
Theorem cache_length_is_clamped (w : World) (value : Z) :
  one_scheduler w ->
  exists fuel0, forall fuel, exists w',
    cache_length_setter (fuel0 + fuel) value w = Ok tt w'
    /\ _cache_length (self w') = Z.max 1 value
    /\ config w' = ("cache_length", cfg_int (Z.max 1 value)) :: config w
    /\ (exists t, threads w' !! _thread (self w') = Some t
                  /\ is_alive t = true
                  /\ __cache_length t = Z.max 1 value * 60
                  /\ 60 <= __cache_length t)
    /\ forall id icons server, exists w2,
         Plugin__init__ (config w') id icons server = Ok tt w2
         /\ _cache_length (self w2) = Z.max 1 value.
Proof.
  intros Hone.
  assert (Hm : (if value <? 1 then 1 else value) = Z.max 1 value)
    by (destruct (Z.ltb_spec value 1); lia).
  remember (Z.max 1 value) as m eqn:Hmax.
  set (w0 := with_config (fun c => ("cache_length", cfg_int m) :: c)
               (with_self (set_cache_length m) w)).
  destruct (retire_ok w0) as [fuel0 Hret]; [exact Hone|].
  exists fuel0. intros fuel.
  destruct (Hret fuel) as (wj & Ej & Hno & Hlen & Hcl).
  pose proof (retire_config (fuel0 + fuel) w0) as Hcfg. rewrite Ej in Hcfg.
  assert (E : cache_length_setter (fuel0 + fuel) value w
              = spawn bound_fetchIndexItems m wj).
  { unfold cache_length_setter. rewrite Hm.
    unfold bind at 1 2 3, modify, writeConfig. simpl. fold w0.
    rewrite Ej. unfold bind at 1, get. now rewrite Hcl. }
  eexists. split; [rewrite E; apply spawn_ok|].
  split; [simpl; exact Hcl|]. split; [simpl; exact Hcfg|]. split.
  - eexists. split; [simpl; now apply list_lookup_middle|].
    split; [reflexivity|]. split; [reflexivity|]. simpl. lia.
  - intros id icons server. unfold Plugin__init__.
    cbn [config with_threads with_self]. rewrite Hcfg.
    unfold w0. cbn [config with_config with_self]. simpl readConfig.
    assert (Hz : (m =? 0) = false) by (apply Z.eqb_neq; lia).
    cbv beta iota. rewrite !Hz, spawn_ok. eexists. split; reflexivity.
Qed.

(** The fresh plugin, its interval set to -5. *)
Lemma cache_length_is_clamped_witness :
  exists fuel0, forall fuel, exists w',
    cache_length_setter (fuel0 + fuel) (-5) (Demo.fresh (Demo.always Failed))
    = Ok tt w'
    /\ _cache_length (self w') = 1.
Proof.
  destruct (cache_length_is_clamped (Demo.fresh (Demo.always Failed)) (-5))
    as [fuel0 H].
  - intros [|j] t Hj Ha; [reflexivity|discriminate].
  - exists fuel0. intros fuel. destruct (H fuel) as (w' & E & Hc & _).
    exists w'. split; [exact E|exact Hc].
Defined.

(** X13. Whatever the stored configuration, [__init__] returns a plugin
    with an empty accumulator and index, nothing sent or logged, exactly
    one thread, started and not stopped, whose interval is sixty times
    the plugin's; the instance URL is never empty and the interval never
    zero, but nothing bounds a configured interval from below. *)
Theorem init_establishes_invariants
    (cfg : list (string * ConfigValue)) (id : string) (icons : list string)
    (server : nat -> Request -> HttpOutcome) :
  exists w,
    Plugin__init__ cfg id icons server = Ok tt w
    /\ one_scheduler w
    /\ threads w = [{| __stop_event := false;
                       __callback := bound_fetchIndexItems;
                       __cache_length := _cache_length (self w) * 60;
                       pc := pc_run |}]
    /\ _thread (self w) = O
    /\ _index_items (self w) = [] /\ index w = []
    /\ net w = [] /\ log w = [] /\ config w = cfg
    /\ _instance_url (self w) <> EmptyString
    /\ _cache_length (self w) <> 0
    /\ _cache_length (self w)
       = match readConfig "cache_length" cfg with
         | Some (cfg_int n) => if n =? 0 then 15 else n
         | _ => 15
         end.
Proof.
  unfold Plugin__init__. rewrite spawn_ok. eexists. split; [reflexivity|].
  cbn [threads self with_threads with_self set_thread _thread _cache_length
       _index_items _instance_url index net log config app length].
  split.
  { intros [|j] t Hj Ha; [reflexivity|discriminate]. }
  do 7 (split; [reflexivity|]). split; [|split; [|reflexivity]].
  - destruct (readConfig "instance_url" cfg) as [[s|n]|]; try discriminate.
    destruct s; discriminate.
  - destruct (readConfig "cache_length" cfg) as [[s|n]|]; try discriminate.
    destruct (Z.eqb_spec n 0); [discriminate|assumption].
Qed.

(** X14. The credentials a setter writes are the ones the next
    [__init__] reads: the API key comes back as it was set, and so does
    the instance URL unless it was set to the empty string, which comes
    back as the default. *)
Theorem written_credentials_are_read_back
    (w : World) (key url id : string) (icons : list string)
    (server : nat -> Request -> HttpOutcome) :
  exists w1 w2 w3,
    api_key_setter key w = Ok tt w1
    /\ instance_url_setter url w1 = Ok tt w2
    /\ Plugin__init__ (config w2) id icons server = Ok tt w3
    /\ _api_key (self w3) = key
    /\ _instance_url (self w3)
       = match url with
         | EmptyString => "http://localhost:8000"
         | String _ _ => url
         end.
Proof.
  eexists _, _, _. split; [reflexivity|]. split; [reflexivity|].
  unfold Plugin__init__. rewrite spawn_ok. split; [reflexivity|].
  split; [reflexivity|]. simpl. now destruct url.
Qed.

(** ** The "Open in Readeck" action *)

Lemma replace1_unfold (old new s : string) :
  replace1 old new s
  = if String.prefix old s
    then new +:+ String.substring (String.length old)
                                  (String.length s - String.length old) s
    else match s with
         | EmptyString => EmptyString
         | String c rest => String c (replace1 old new rest)
         end.
Proof. destruct s; reflexivity. Qed.

Lemma substring_whole (s : string) : String.substring 0 (String.length s) s = s.
Proof. induction s as [|c s IH]; simpl; [reflexivity|now rewrite IH]. Qed.

Lemma substring_after (u s : string) :
  String.substring (String.length u)
                   (String.length (u +:+ s) - String.length u) (u +:+ s) = s.
Proof.
  induction u as [|c u IH]; simpl.
  - rewrite Nat.sub_0_r. apply substring_whole.
  - exact IH.
Qed.

Lemma append_empty (s : string) : s +:+ EmptyString = s.
Proof. induction s as [|c s IH]; simpl; [reflexivity|now rewrite IH]. Qed.

(** The leftmost match is the one replaced. *)
Lemma replace1_first_match (old new a rest : string) :
  no_match_in old a (old +:+ rest) = true ->
  replace1 old new (a +:+ old +:+ rest) = a +:+ new +:+ rest.
Proof.
  induction a as [|c a IH]; intros Hno.
  - simpl String.append. rewrite replace1_unfold, prefix_append.
    now rewrite substring_after.
  - cbn [no_match_in] in Hno. apply andb_prop in Hno as [Hp Hrest].
    apply negb_true_iff in Hp.
    rewrite replace1_unfold, Hp. cbn [String.append]. now rewrite IH.
Qed.

(** Without a match the string is returned as it is. *)
Lemma replace1_no_match (old new s : string) :
  old <> EmptyString ->
  no_match_in old s EmptyString = true ->
  replace1 old new s = s.
Proof.
  intros Hold. induction s as [|c s IH]; intros Hno.
  - destruct old; [congruence|reflexivity].
  - cbn [no_match_in] in Hno. apply andb_prop in Hno as [Hp Hrest].
    apply negb_true_iff in Hp. rewrite append_empty in Hp.
    rewrite replace1_unfold, Hp. now rewrite IH.
Qed.

(** X15. "Open in Readeck" opens the bookmark's href with its first
    "/api" taken out and everything after it kept, also a later "/api";
    "Open bookmark URL" opens the url as it is. *)
Theorem open_in_readeck_strips_first_api
    (p : Plugin) (b : RawRecord) (a rest : string) :
  bk_href b = a +:+ "/api" +:+ rest ->
  no_match_in "/api" a ("/api" +:+ rest) = true ->
  callables_of "open" (_gen_item p b)
  = [lambda_openUrl (a +:+ rest); lambda_openUrl (bk_url b)].
Proof.
  intros Hh Hno. unfold callables_of, _gen_item. simpl.
  rewrite Hh, (replace1_first_match "/api" EmptyString a rest Hno).
  reflexivity.
Qed.

(** A bookmark whose API path has a second "/api" further on. *)
Lemma open_in_readeck_witness :
  callables_of "open"
    (_gen_item (self (Demo.fresh (Demo.always Failed)))
               (Demo.bookmark "api/x" false))
  = [lambda_openUrl "http://localhost:8000/bookmarks/api/x";
     lambda_openUrl "http://api/x"].
Proof.
  exact (open_in_readeck_strips_first_api
           (self (Demo.fresh (Demo.always Failed)))
           (Demo.bookmark "api/x" false)
           "http://localhost:8000" "/bookmarks/api/x" eq_refl eq_refl).
Defined.

(** X16. An href in which "/api" does not occur is opened unchanged. *)
Theorem href_without_api_opens_unchanged (p : Plugin) (b : RawRecord) :
  no_match_in "/api" (bk_href b) EmptyString = true ->
  callables_of "open" (_gen_item p b)
  = [lambda_openUrl (bk_href b); lambda_openUrl (bk_url b)].
Proof.
  intros Hno. unfold callables_of, _gen_item. simpl.
  rewrite (replace1_no_match "/api" EmptyString (bk_href b)); [reflexivity| |exact Hno].
  discriminate.
Qed.

Lemma href_without_api_witness :
  callables_of "open"
    (_gen_item (self (Demo.fresh (Demo.always Failed)))
               {| bk_id := "7"; bk_url := "http://x"; bk_title := "t";
                  bk_labels := []; bk_is_marked := false;
                  bk_is_archived := false;
                  bk_href := "http://host/ap/i/7" |})
  = [lambda_openUrl "http://host/ap/i/7"; lambda_openUrl "http://x"].
Proof.
  exact (href_without_api_opens_unchanged
           (self (Demo.fresh (Demo.always Failed)))
           {| bk_id := "7"; bk_url := "http://x"; bk_title := "t";
              bk_labels := []; bk_is_marked := false;
              bk_is_archived := false;
              bk_href := "http://host/ap/i/7" |} eq_refl).
Defined.

(** ** Termination *)

(** X17. Whatever the server answers, also when every page reports a
    different total, a refresh cycle comes to an end, and so does every
    closure the plugin hands out and every step of a scheduler thread. *)
Theorem every_operation_ends (w : World) :
  (exists fuel0, forall fuel,
      fetchIndexItems (fuel0 + fuel) w <> OutOfFuel)
  /\ (forall c, exists fuel0, forall fuel,
         call (fuel0 + fuel) c w <> OutOfFuel)
  /\ (forall tid, exists fuel0, forall fuel,
         thread_step (fuel0 + fuel) tid w <> OutOfFuel).
Proof.
  split; [|split].
  - destruct (fetchIndexItems_terminates w) as [f H].
    exists f. intros fuel. apply H. lia.
  - intros c. destruct (call_terminates c w) as [f H].
    exists f. intros fuel. apply H. lia.
  - intros tid. destruct (thread_step_terminates tid w) as [f H].
    exists f. intros fuel. apply H. lia.
Qed.

(** ** The function behind no action *)

(** X18. [_delete_bookmark], were it called, would refresh exactly when
    its [DELETE] is answered with a success: after an error status the
    [DELETE] is the only request and the index stays as it is; after a
    success one refresh cycle follows; when it raises, the index is
    unchanged. *)
Theorem delete_bookmark_outcome (fuel : nat) (bookmark_id : string) (w : World) :
  let delete := delete_request w bookmark_id in
  let debug := debug_about_to DELETE (req_url delete) in
  match _delete_bookmark fuel bookmark_id w with
  | Ok _ w' =>
      (exists r,
          remote w (length (net w)) delete = Responded r /\ ok r = false
          /\ net w' = net w ++ [delete]
          /\ index w' = index w
          /\ log w' = log w ++ [debug; warning_response (status_code r)])
      \/ (exists r n links ws,
             remote w (length (net w)) delete = Responded r /\ ok r = true
             /\ net w' = net w ++ delete
                         :: page_requests (_instance_url (self w))
                              (get_headers (_api_key (self w))) 0 (S n)
             /\ index w' = _index_items (self w)
                           ++ map (index_item (self w)) links
             /\ log w' = log w ++ debug :: ws
                         ++ [info_indexed (length (index w'))]
             /\ at_most_a_warning ws)
  | Raise _ w' =>
      index w' = index w /\ log w' = log w ++ [debug]
      /\ exists n,
           net w' = net w ++ delete
                    :: page_requests (_instance_url (self w))
                         (get_headers (_api_key (self w))) 0 n
  | OutOfFuel => True
  end.
Proof.
  cbv zeta. rewrite _delete_bookmark_unfold. cbv zeta.
  destruct (remote w (length (net w)) (delete_request w bookmark_id))
    as [r|] eqn:Hr.
  - destruct (ok r) eqn:Hok.
    + match goal with |- match fetchIndexItems fuel ?w1 with _ => _ end =>
        pose proof (fetchIndexItems_effect fuel w1) as H;
        destruct (fetchIndexItems fuel w1) as [[] w'|e w'|]; [| |exact I]
      end.
      * destruct H as (n & links & ws & -> & Hws). right.
        exists r, n, links, ws. simpl.
        rewrite <- !app_assoc. simpl. now repeat split.
      * destruct H as (n & links & ->). simpl.
        split; [reflexivity|]. split; [reflexivity|].
        exists (S n). now rewrite <- app_assoc.
    + left. exists r. simpl. rewrite <- app_assoc. now repeat split.
  - simpl. split; [reflexivity|]. split; [reflexivity|]. now exists O.
Qed.
